(** * Input validation, rate limiting and CRUD handlers of the one-page list app

    A shallow embedding of [src/utils/security.ts] (the security utilities)
    and of the mutation handlers of [src/App.tsx], followed by the theorems
    that settle the properties stated about them.

    - JavaScript strings are sequences of UTF-16 code units: [list Z].
    - [Date.now()] readings and the renderings of [Math.random()] are
      explicit arguments of the functions that consume them.
    - The rate limiter's [Map<string, number[]>] is a [gmap].
    - Regular-expression literals are values of an abstract syntax, run by a
      backtracking matcher written in continuation-passing style. *)

From Stdlib Require Import ZArith Lia Bool List Sorted Ascii String DecimalString.
From Stdlib Require DecimalPos DecimalZ.
From stdpp Require Import gmap.
Import ListNotations.

Set Default Proof Using "Type".
Local Open Scope Z_scope.

(** ** JavaScript strings *)

Abbreviation jsstring := (list Z).

Definition ch (a : ascii) : Z := Z.of_N (N_of_ascii a).

Fixpoint js (s : string) : jsstring :=
  match s with
  | EmptyString => []
  | String a s' => ch a :: js s'
  end.
Arguments js s%_string.

Definition in_range (lo hi c : Z) : bool := (lo <=? c) && (c <=? hi).

Definition in_ranges (rs : list (Z * Z)) (c : Z) : bool :=
  existsb (fun r => in_range (fst r) (snd r) c) rs.

(** [\w] : ASCII letters, digits and underscore. *)
Definition word_ranges : list (Z * Z) :=
  [(ch "a", ch "z"); (ch "A", ch "Z"); (ch "0", ch "9"); (ch "_", ch "_")].

(** [\s], which is also what [String.prototype.trim] strips: the WhiteSpace
    and LineTerminator code points of ECMAScript. *)
Definition space_ranges : list (Z * Z) :=
  [(9, 13); (32, 32); (160, 160); (0x1680, 0x1680); (0x2000, 0x200a);
   (0x2028, 0x2029); (0x202f, 0x202f); (0x205f, 0x205f); (0x3000, 0x3000);
   (0xfeff, 0xfeff)].

(** [\d] *)
Definition digit_ranges : list (Z * Z) := [(ch "0", ch "9")].

Definition is_word (c : Z) : bool := in_ranges word_ranges c.
Definition is_space (c : Z) : bool := in_ranges space_ranges c.

(** [String.prototype.trim] *)
Fixpoint trimStart (s : jsstring) : jsstring :=
  match s with
  | c :: s' => if is_space c then trimStart s' else s
  | [] => []
  end.

Definition trim (s : jsstring) : jsstring :=
  rev (trimStart (rev (trimStart s))).

(** [String.prototype.substring(a, b)] for [0 <= a <= b]. *)
Definition substring (a b : nat) (s : jsstring) : jsstring :=
  firstn (b - a) (skipn a s).

(** Truthiness of a string: only the empty string is falsy. *)
Definition truthy (s : jsstring) : bool :=
  match s with [] => false | _ => true end.

(** ** Regular expressions *)

Module Re.

(** The constructs used by the patterns of the program.  Groups only
    delimit (no pattern has a back-reference), so they are not represented. *)
Inductive regex : Type :=
| Eps                                        (* empty pattern *)
| Chr (c : Z)                                (* a pattern character *)
| Cls (neg : bool) (rs : list (Z * Z))       (* [...] , [^...] , \w \s \d *)
| Seq (r1 r2 : regex)                        (* r1 r2 *)
| Alt (r1 r2 : regex)                        (* r1 | r2 *)
| Star (r : regex)                           (* r* (greedy) *)
| NotAhead (r : regex)                       (* (?!r) *)
| WordB                                      (* \b *)
| Bol                                        (* ^ (no multiline flag) *)
| Eol.                                       (* $ (no multiline flag) *)

(** r+ *)
Definition Plus (r : regex) : regex := Seq r (Star r).

(** A run of pattern characters. *)
Fixpoint lit (w : jsstring) : regex :=
  match w with
  | [] => Eps
  | c :: w' => Seq (Chr c) (lit w')
  end.

(** r1 | r2 | ... *)
Fixpoint alts (rs : list regex) : regex :=
  match rs with
  | [] => NotAhead Eps
  | [r] => r
  | r :: rs' => Alt r (alts rs')
  end.

(** Canonicalize of the [i] flag without the [u] flag, on the code units
    it can relate to an ASCII pattern character: a code unit of 128 or more
    is never mapped below 128, so only the ASCII letters fold. *)
Definition canonicalize (c : Z) : Z :=
  if in_range (ch "a") (ch "z") c then c - 32 else c.

Definition swapcase (c : Z) : Z :=
  if in_range (ch "a") (ch "z") c then c - 32
  else if in_range (ch "A") (ch "Z") c then c + 32
  else c.

Definition chr_eq (ic : bool) (c x : Z) : bool :=
  if ic then canonicalize c =? canonicalize x else c =? x.

(** A class matches [x] when some member has the canonical form of [x];
    the members of the classes used here are ASCII or caseless. *)
Definition cls_match (ic neg : bool) (rs : list (Z * Z)) (x : Z) : bool :=
  xorb neg (in_ranges rs x || (ic && in_ranges rs (swapcase x))).

(** A position in the input: the consumed prefix, reversed, and the rest. *)
Definition pos : Type := jsstring * jsstring.

Definition word_before (p : pos) : bool :=
  match fst p with c :: _ => is_word c | [] => false end.

Definition word_after (p : pos) : bool :=
  match snd p with c :: _ => is_word c | [] => false end.

Definition at_start (p : pos) : bool :=
  match fst p with [] => true | _ => false end.

Definition at_end (p : pos) : bool :=
  match snd p with [] => true | _ => false end.

(** The backtracking matcher: [mtch ic r p k] tries every way for [r] to
    match at [p], in priority order, until the continuation [k] accepts the
    end position.  An iteration of [*] that consumes nothing is refused, as
    in ECMAScript's RepeatMatcher; the fuel of the loop is the number of
    code units left, which every accepted iteration decreases. *)
Fixpoint mtch (ic : bool) (r : regex) (p : pos) (k : pos -> bool) {struct r} : bool :=
  match r with
  | Eps => k p
  | Chr c =>
      match snd p with
      | x :: rest => if chr_eq ic c x then k (x :: fst p, rest) else false
      | [] => false
      end
  | Cls neg rs =>
      match snd p with
      | x :: rest =>
          if cls_match ic neg rs x then k (x :: fst p, rest) else false
      | [] => false
      end
  | Seq r1 r2 => mtch ic r1 p (fun q => mtch ic r2 q k)
  | Alt r1 r2 => if mtch ic r1 p k then true else mtch ic r2 p k
  | Star r1 =>
      (fix loop (n : nat) (p : pos) {struct n} : bool :=
         match n with
         | O => k p
         | S n' =>
             if mtch ic r1 p
                  (fun q =>
                     if (length (snd q) <? length (snd p))%nat
                     then loop n' q else false)
             then true else k p
         end) (length (snd p)) p
  | NotAhead r1 => if mtch ic r1 p (fun _ => true) then false else k p
  | WordB => if xorb (word_before p) (word_after p) then k p else false
  | Bol => if at_start p then k p else false
  | Eol => if at_end p then k p else false
  end.

(** The first match is searched from every start index in turn. *)
Fixpoint search (ic : bool) (r : regex) (pre rest : jsstring) : bool :=
  if mtch ic r (pre, rest) (fun _ => true) then true
  else match rest with
       | [] => false
       | x :: rest' => search ic r (x :: pre) rest'
       end.

(** A regular-expression literal with its flags ([g] only affects
    [lastIndex], which is 0 on a freshly evaluated literal). *)
Record RegExp : Type := mkRegExp { pattern : regex; ignoreCase : bool }.

(** [re.test(s)] on a fresh literal, and the truthiness of [s.match(re)]. *)
Definition test (re : RegExp) (s : jsstring) : bool :=
  search (ignoreCase re) (pattern re) [] s.

(** *** What it is for a pattern to match

    [Matches ic r p q]: the pattern [r] can match from position [p] to
    position [q].  The matcher finds every such match ([mtch_complete]
    below); the negative lookahead refers to the matcher itself. *)

(** [u] is the run of pattern characters [w], up to case when [ic]. *)
Fixpoint lit_eq (ic : bool) (w u : jsstring) : bool :=
  match w, u with
  | [], [] => true
  | c :: w', x :: u' => chr_eq ic c x && lit_eq ic w' u'
  | _, _ => false
  end.

Inductive Matches (ic : bool) : regex -> pos -> pos -> Prop :=
| M_Eps p : Matches ic Eps p p
| M_Chr c x pre rest :
    chr_eq ic c x = true ->
    Matches ic (Chr c) (pre, x :: rest) (x :: pre, rest)
| M_Cls neg rs x pre rest :
    cls_match ic neg rs x = true ->
    Matches ic (Cls neg rs) (pre, x :: rest) (x :: pre, rest)
| M_Seq r1 r2 p q q' :
    Matches ic r1 p q -> Matches ic r2 q q' -> Matches ic (Seq r1 r2) p q'
| M_AltL r1 r2 p q : Matches ic r1 p q -> Matches ic (Alt r1 r2) p q
| M_AltR r1 r2 p q : Matches ic r2 p q -> Matches ic (Alt r1 r2) p q
| M_Star0 r p : Matches ic (Star r) p p
| M_StarS r p q q' :
    Matches ic r p q -> (length (snd q) < length (snd p))%nat ->
    Matches ic (Star r) q q' -> Matches ic (Star r) p q'
| M_NotAhead r p :
    mtch ic r p (fun _ => true) = false -> Matches ic (NotAhead r) p p
| M_WordB p :
    xorb (word_before p) (word_after p) = true -> Matches ic WordB p p
| M_Bol rest : Matches ic Bol ([], rest) ([], rest)
| M_Eol pre : Matches ic Eol (pre, []) (pre, []).

End Re.

Import Re.

Declare Scope regex_scope.
Delimit Scope regex_scope with re.
Infix ">>" := Seq (at level 41, right associativity) : regex_scope.
Local Open Scope regex_scope.

Definition str (s : string) : regex := lit (js s).
Arguments str s%_string.

Definition word : regex := Cls false word_ranges.            (* \w *)
Definition space : regex := Cls false space_ranges.          (* \s *)
Definition digit : regex := Cls false digit_ranges.          (* \d *)
Definition not_lt : regex := Cls true [(ch "<", ch "<")].    (* [^<] *)

Definition gi (r : regex) : RegExp := mkRegExp r true.       (* /r/gi *)
Definition g (r : regex) : RegExp := mkRegExp r false.       (* /r/g and /r/ *)

(** ** security.ts *)

(** The script-tag pattern, flags [gi]; with its parts spaced out it reads
    [<script \b [^<]* (?: (?! <\/script> ) < [^<]* )* <\/script>]. *)
Definition script_element : regex :=
  str "<script" >> WordB >> Star not_lt
  >> Star (NotAhead (str "</script>") >> Chr (ch "<") >> Star not_lt)
  >> str "</script>".

Definition maliciousPatterns : list RegExp :=
  [ gi script_element;                                   (* Script tags *)
    gi (str "javascript:");                              (* /javascript:/gi *)
    gi (str "on" >> Plus word >> Star space >> Chr (ch "="));  (* /on\w+\s*=/gi *)
    gi (str "data:text/html");                           (* /data:text\/html/gi *)
    gi (str "vbscript:");                                (* /vbscript:/gi *)
    gi (str "<iframe");                                  (* /<iframe/gi *)
    gi (str "<object");                                  (* /<object/gi *)
    gi (str "<embed");                                   (* /<embed/gi *)
    gi (str "<link");                                    (* /<link/gi *)
    gi (str "<meta");                                    (* /<meta/gi *)
    gi (str "<style");                                   (* /<style/gi *)
    gi (str "expression" >> Star space >> Chr (ch "(")); (* /expression\s*\(/gi *)
    gi (str "url" >> Star space >> Chr (ch "("));        (* /url\s*\(/gi *)
    gi (str "@import") ].                                (* /@import/gi *)

Definition validateInput (input : jsstring) : bool :=
  (* empty or whitespace-only input *)
  if negb (truthy input) || negb (truthy (trim input)) then false
  (* length limit *)
  else if (1000 <? length input)%nat then false
  (* potentially malicious patterns *)
  else negb (existsb (fun pattern => test pattern input) maliciousPatterns).

(** [s.replace(/c/g, by)] for a pattern of one character [c] and a
    replacement [by] without [$]: every occurrence of [c] becomes [by]. *)
Definition replace_all (c : Z) (by_ : jsstring) (s : jsstring) : jsstring :=
  flat_map (fun x => if x =? c then by_ else [x]) s.

Definition sanitizeHtml (input : jsstring) : jsstring :=
  replace_all (ch "/") (js "&#x2F;")
    (replace_all (ch "'") (js "&#x27;")
      (replace_all 34 (js "&quot;")
        (replace_all (ch ">") (js "&gt;")
          (replace_all (ch "<") (js "&lt;")
            (replace_all (ch "&") (js "&amp;") input))))).

Definition sqlKeywords : list string :=
  ["SELECT"; "INSERT"; "UPDATE"; "DELETE"; "DROP"; "CREATE"; "ALTER"; "EXEC";
   "UNION"; "SCRIPT"]%string.

Definition sqlPunctuation : list jsstring :=
  [js "--"; js "/*"; js "*/"; js ";"; js "'"; [34]; js "|"; js "&"; js "+"].

Definition sqlPatterns : list RegExp :=
  [ (* /(\b(SELECT|INSERT|UPDATE|DELETE|DROP|CREATE|ALTER|EXEC|UNION|SCRIPT)\b)/gi *)
    gi (WordB >> alts (map str sqlKeywords) >> WordB);
    (* flag g: the alternation of  --  /*  */  ;  '  the double quote (34)
       |  &  + *)
    g (alts (map lit sqlPunctuation)) ].

Definition xssPatterns : list RegExp :=
  [ gi (str "javascript:"); gi (str "vbscript:"); gi (str "onload");
    gi (str "onerror"); gi (str "onclick"); gi (str "onmouseover");
    gi (str "<script"); gi (str "</script>"); gi (str "eval(");
    gi (str "alert("); gi (str "confirm("); gi (str "prompt(") ].

Definition isValidContent (content : jsstring) : bool :=
  let trimmed := trim content in
  let hasSqlInjection := existsb (fun pattern => test pattern trimmed) sqlPatterns in
  let hasXss := existsb (fun pattern => test pattern trimmed) xssPatterns in
  negb hasSqlInjection && negb hasXss.

(** *** The rate limiter *)

Record RateLimiter : Type := mkRateLimiter {
  attempts : gmap jsstring (list Z);
  maxAttempts : Z;
  windowMs : Z
}.

(** [new RateLimiter(maxAttempts, windowMs)] *)
Definition newRateLimiter (maxAttempts windowMs : Z) : RateLimiter :=
  mkRateLimiter ∅ maxAttempts windowMs.

(** [isAllowed(key)], with [now] the reading of [Date.now()]: the answer
    and the limiter afterwards. *)
Definition isAllowed (now : Z) (key : jsstring) (rl : RateLimiter)
  : bool * RateLimiter :=
  let attempts_ := default [] (attempts rl !! key) in
  (* remove old attempts outside the window *)
  let validAttempts :=
    List.filter (fun time => now - time <? windowMs rl) attempts_ in
  if Z.of_nat (length validAttempts) >=? maxAttempts rl then (false, rl)
  else
    (true,
     mkRateLimiter (<[key := validAttempts ++ [now]]> (attempts rl))
       (maxAttempts rl) (windowMs rl)).

Definition reset (key : jsstring) (rl : RateLimiter) : RateLimiter :=
  mkRateLimiter (delete key (attempts rl)) (maxAttempts rl) (windowMs rl).

(** [export const rateLimiter = new RateLimiter()] with the defaults. *)
Definition rateLimiter : RateLimiter := newRateLimiter 10 60000.

(** A run of calls of [isAllowed(key)] at the clock readings [ts]. *)
Fixpoint isAllowed_run (key : jsstring) (ts : list Z) (rl : RateLimiter)
  : list bool * RateLimiter :=
  match ts with
  | [] => ([], rl)
  | t :: ts' =>
      let (b, rl') := isAllowed t key rl in
      let (bs, rl'') := isAllowed_run key ts' rl' in
      (b :: bs, rl'')
  end.

(** *** Identifiers *)

(** [String(n)] of an integer number below 1e21: its decimal digits. *)
Definition numberToString (n : Z) : jsstring :=
  js (NilZero.string_of_int (Z.to_int n)).

(** [Math.random().toString(36)] is an argument of the generator.  For a
    number in [0,1) that rendering is ["0"] when the number is zero and
    otherwise ["0."] followed by at least one digit of [0-9a-z] (radix
    conversion has no exponent form); which digits is left to the engine. *)
Definition is_base36 (c : Z) : bool :=
  in_range (ch "0") (ch "9") c || in_range (ch "a") (ch "z") c.

Definition radix36_fraction (r : jsstring) : bool :=
  match r with
  | [z] => z =? ch "0"
  | z :: d :: x :: ds => (z =? ch "0") && (d =? ch ".") && forallb is_base36 (x :: ds)
  | _ => false
  end.

Definition generateSecureId (timestamp : Z) (rnd1 rnd2 : jsstring) : jsstring :=
  let random := substring 2 15 rnd1 in
  let moreRandom := substring 2 15 rnd2 in
  numberToString timestamp ++ js "_" ++ random ++ moreRandom.

Definition validateLength (input : jsstring) (maxLength : nat) : bool :=
  (length input <=? maxLength)%nat.

(** *** Context validation *)

Inductive context : Type := CtxText | CtxAttribute | CtxUrl.

Section ContextValidation.

(** [new URL(input).protocol], [None] when the constructor throws: the
    host's URL parser. *)
Variable url_protocol : jsstring -> option jsstring.

Definition validateForContext (input : jsstring) (ctx : context) : bool :=
  match ctx with
  | CtxText => validateInput input && isValidContent input
  | CtxAttribute =>
      validateInput input
      && negb (test (g (Cls false [(ch "<", ch "<"); (ch ">", ch ">");
                                   (34, 34); (ch "'", ch "'");
                                   (ch "&", ch "&")])) input)
  | CtxUrl =>
      match url_protocol input with
      | Some protocol => bool_decide (protocol ∈ [js "http:"; js "https:"])
      | None => false
      end
  end.

End ContextValidation.

(** *** Audit logging *)

(** The event names passed to [auditLog]. *)
Inductive AuditEvent : Type :=
| RATE_LIMIT_EXCEEDED
| INPUT_TOO_LONG
| MALICIOUS_INPUT_DETECTED
| SUSPICIOUS_CONTENT_DETECTED
| CONTEXT_VALIDATION_FAILED
| ITEM_CREATED
| INVALID_DELETE_ID
| DELETE_RATE_LIMIT_EXCEEDED
| ITEM_DELETED
| INVALID_EDIT_ITEM
| EDIT_STARTED
| ITEM_UPDATED
| EDIT_CANCELLED.

(** The module-level state of security.ts seen by the handlers: the shared
    [rateLimiter] and the audit sink (the names of the events written to it,
    latest first; the details of an entry are left out). *)
Record Env : Type := mkEnv {
  limiter : RateLimiter;
  audit : list AuditEvent
}.

Definition auditLog (event : AuditEvent) (e : Env) : Env :=
  mkEnv (limiter e) (event :: audit e).

(** ** App.tsx *)

Module App.

Record Item : Type := mkItem {
  id : jsstring;
  text : jsstring;
  createdAt : Z;
  lastModified : Z
}.

Record SecurityState : Type := mkSecurity {
  isBlocked : bool;
  message : string;
  attempts : Z
}.

(** The return value of [validateAndSanitizeInput]. *)
Record Validation : Type := mkValidation {
  isValid : bool;
  sanitized : jsstring;
  error : option string
}.

(** The component's state, with the module state of security.ts. *)
Record State : Type := mkState {
  items : list Item;
  newItem : jsstring;
  editingId : option jsstring;
  editingText : jsstring;
  security : SecurityState;
  env : Env
}.

Definition initial : State :=
  mkState [] [] None [] (mkSecurity false "" 0) (mkEnv rateLimiter []).

Definition invalid (msg : string) : Validation :=
  mkValidation false [] (Some msg).

(** [validation.error || 'Security validation failed'] *)
Definition error_or_default (v : Validation) : string :=
  match error v with
  | Some (String a m) => String a m
  | _ => "Security validation failed"%string
  end.

Section Handlers.

Variable url_protocol : jsstring -> option jsstring.

(** [validateAndSanitizeInput(input)]; [now] is the reading of
    [Date.now()] inside [rateLimiter.isAllowed]. *)
Definition validateAndSanitizeInput (now : Z) (input : jsstring) (e : Env)
  : Validation * Env :=
  (* rate limiting check *)
  let (allowed, rl) := isAllowed now (js "crud_operations") (limiter e) in
  let e := mkEnv rl (audit e) in
  if negb allowed then
    (invalid "Too many requests. Please wait before trying again.",
     auditLog RATE_LIMIT_EXCEEDED e)
  (* length validation *)
  else if negb (validateLength input 500) then
    (invalid "Input is too long. Maximum 500 characters allowed.",
     auditLog INPUT_TOO_LONG e)
  (* content validation *)
  else if negb (validateInput input) then
    (invalid "Invalid input detected. Please check your content.",
     auditLog MALICIOUS_INPUT_DETECTED e)
  else if negb (isValidContent input) then
    (invalid "Potentially unsafe content detected.",
     auditLog SUSPICIOUS_CONTENT_DETECTED e)
  else if negb (validateForContext url_protocol input CtxText) then
    (invalid "Content failed security validation.",
     auditLog CONTEXT_VALIDATION_FAILED e)
  else
    (* sanitize the input *)
    (mkValidation true (sanitizeHtml (trim input)) None, e).

(** [handleNewItemChange] with [e.target.value = value]. *)
Definition handleNewItemChange (value : jsstring) (st : State) : State :=
  if (500 <? length value)%nat then
    mkState (items st) (newItem st) (editingId st) (editingText st)
      (mkSecurity true "Input too long. Maximum 500 characters." 0) (env st)
  else
    mkState (items st) value (editingId st) (editingText st)
      (if isBlocked (security st) && (length value <? 500)%nat
       then mkSecurity false "" (attempts (security st))
       else security st)
      (env st).

(** [addItem()]: [t_limit], [t_now] and [t_id] are the readings of
    [Date.now()] in the rate limiter, in [addItem] itself and in
    [generateSecureId]; [rnd1] and [rnd2] are the two renderings of
    [Math.random()]. *)
Definition addItem (t_limit t_now t_id : Z) (rnd1 rnd2 : jsstring) (st : State)
  : State :=
  let (validation, e) := validateAndSanitizeInput t_limit (newItem st) (env st) in
  if negb (isValid validation) then
    mkState (items st) (newItem st) (editingId st) (editingText st)
      (mkSecurity true (error_or_default validation)
         (attempts (security st) + 1))
      e
  else if truthy (sanitized validation) then
    let item :=
      mkItem (generateSecureId t_id rnd1 rnd2) (sanitized validation)
        t_now t_now in
    mkState (items st ++ [item]) [] (editingId st) (editingText st)
      (mkSecurity false "" 0) (auditLog ITEM_CREATED e)
  else
    mkState (items st) (newItem st) (editingId st) (editingText st)
      (security st) e.

(** [/^\d+_[a-z0-9]+$/] *)
Definition idFormat : RegExp :=
  g (Bol >> Plus digit >> Chr (ch "_")
     >> Plus (Cls false [(ch "a", ch "z"); (ch "0", ch "9")]) >> Eol).

(** [deleteItem(id)]; an argument of the model is always a string. *)
Definition deleteItem (now : Z) (i : jsstring) (st : State) : State :=
  (* validate ID format *)
  if negb (test idFormat i) then
    mkState (items st) (newItem st) (editingId st) (editingText st)
      (mkSecurity true "Invalid item identifier" 0)
      (auditLog INVALID_DELETE_ID (env st))
  else
    let (allowed, rl) := isAllowed now (js "delete_operations") (limiter (env st)) in
    let e := mkEnv rl (audit (env st)) in
    if negb allowed then
      mkState (items st) (newItem st) (editingId st) (editingText st)
        (mkSecurity true "Too many delete requests. Please wait." 0)
        (auditLog DELETE_RATE_LIMIT_EXCEEDED e)
    else
      mkState (List.filter (fun item => negb (bool_decide (id item = i))) (items st))
        (newItem st) (editingId st) (editingText st) (security st)
        (auditLog ITEM_DELETED e).

(** [startEditing(item)] on an item of the list (both fields strings). *)
Definition startEditing (item : Item) (st : State) : State :=
  mkState (items st) (newItem st) (Some (id item)) (text item) (security st)
    (auditLog EDIT_STARTED (env st)).

(** [handleEditTextChange] with [e.target.value = value]. *)
Definition handleEditTextChange (value : jsstring) (st : State) : State :=
  if (500 <? length value)%nat then
    mkState (items st) (newItem st) (editingId st) (editingText st)
      (mkSecurity true "Input too long. Maximum 500 characters." 0) (env st)
  else
    mkState (items st) (newItem st) (editingId st) value (security st) (env st).

(** [saveEdit()]: [t_limit] is the reading of [Date.now()] in the rate
    limiter and [t_mod] the one that stamps the edited item. *)
Definition saveEdit (t_limit t_mod : Z) (st : State) : State :=
  match editingId st with
  | None | Some [] => st
  | Some eid =>
      let (validation, e) :=
        validateAndSanitizeInput t_limit (editingText st) (env st) in
      if negb (isValid validation) then
        mkState (items st) (newItem st) (editingId st) (editingText st)
          (mkSecurity true (error_or_default validation) 0) e
      else if truthy (sanitized validation) then
        mkState
          (map (fun item =>
                  if bool_decide (id item = eid)
                  then mkItem (id item) (sanitized validation)
                         (createdAt item) t_mod
                  else item)
               (items st))
          (newItem st) None [] (mkSecurity false "" 0)
          (auditLog ITEM_UPDATED e)
      else
        mkState (items st) (newItem st) None [] (mkSecurity false "" 0) e
  end.

Definition cancelEdit (st : State) : State :=
  mkState (items st) (newItem st) None [] (security st)
    (auditLog EDIT_CANCELLED (env st)).

(** The callback that [addItem] and [saveEdit] defer by 5000 ms after a
    rejection; it is an event of its own. *)
Definition clearAlert (st : State) : State :=
  mkState (items st) (newItem st) (editingId st) (editingText st)
    (mkSecurity false "" (attempts (security st))) (env st).

End Handlers.

End App.

(** ** Vocabulary of the statements *)

(** [w] is a substring of [s]. *)
Definition contains (w s : jsstring) : Prop :=
  exists pre post, s = pre ++ w ++ post.

(** [w] occurs in [s] in some casing. *)
Definition contains_ci (w s : jsstring) : Prop :=
  exists pre u post, s = pre ++ u ++ post /\ lit_eq true w u = true.

Definition not_word_first (s : jsstring) : Prop :=
  match s with c :: _ => is_word c = false | [] => True end.

(** [w] occurs in [s] in some casing as a whole word: no word character
    right before it nor right after it. *)
Definition whole_word_ci (w s : jsstring) : Prop :=
  exists pre u post,
    s = pre ++ u ++ post /\ lit_eq true w u = true
    /\ not_word_first (rev pre) /\ not_word_first post.

(** A script element: an opening [<script] tag (the name ends at a
    non-word character) with a closing tag after it, in any casing. *)
Definition closed_script_element (s : jsstring) : Prop :=
  exists pre open body close post,
    s = pre ++ open ++ body ++ close ++ post
    /\ lit_eq true (js "<script") open = true
    /\ lit_eq true (js "</script>") close = true
    /\ not_word_first body.

(** The entity of one character, as the sanitizer is specified: the six
    HTML-significant characters have one, any other stands for itself. *)
Definition escape (c : Z) : jsstring :=
  if c =? ch "&" then js "&amp;"
  else if c =? ch "<" then js "&lt;"
  else if c =? ch ">" then js "&gt;"
  else if c =? 34 then js "&quot;"
  else if c =? ch "'" then js "&#x27;"
  else if c =? ch "/" then js "&#x2F;"
  else [c].

(** The timestamps stored for [key]. *)
Definition stored (key : jsstring) (rl : RateLimiter) : list Z :=
  default [] (attempts rl !! key).

(** A call of the pipeline that started in [e] and returned [r] rejected
    its input with the message [msg], writing [event] to the audit sink. *)
Definition rejected_as (event : AuditEvent) (msg : string) (e : Env)
    (r : App.Validation * Env) : Prop :=
  fst r = App.invalid msg /\ audit (snd r) = event :: audit e.

(** The rate limiter lets a [crud_operations] call through at [now]. *)
Definition crud_allowed (now : Z) (e : Env) : Prop :=
  fst (isAllowed now (js "crud_operations") (limiter e)) = true.

(** ** More of security.ts and of the component *)

(** [safeObjectCreate(data)]: an object is the finite map of its own
    enumerable properties, which is what the loop with its
    [hasOwnProperty] test walks; the copy has no prototype. *)
Definition unsafeKeys : list jsstring :=
  [js "__proto__"; js "constructor"; js "prototype"].

Definition safeObjectCreate {V : Type} (data : gmap jsstring V)
  : gmap jsstring V :=
  filter (fun kv => kv.1 ∉ unsafeKeys) data.

(** The clock readings of the calls that [isAllowed] let through in a run. *)
Fixpoint allowed_times (key : jsstring) (ts : list Z) (rl : RateLimiter)
  : list Z :=
  match ts with
  | [] => []
  | t :: ts' =>
      let (b, rl') := isAllowed t key rl in
      (if b then [t] else []) ++ allowed_times key ts' rl'
  end.

(** The timestamps of [l] that are in the window of a call at [now]. *)
Definition in_window (w now : Z) (l : list Z) : list Z :=
  List.filter (fun time => now - time <? w) l.

(** A run of pipeline calls, each with its clock reading and its input. *)
Fixpoint pipeline_run (url_protocol : jsstring -> option jsstring)
    (calls : list (Z * jsstring)) (e : Env) : Env :=
  match calls with
  | [] => e
  | (now, input) :: calls' =>
      pipeline_run url_protocol calls'
        (snd (App.validateAndSanitizeInput url_protocol now input e))
  end.

(** The events of the component.  The buttons that the page disables while
    an alert is shown are not taken into account: every handler may run in
    every state. *)
Inductive Event : Type :=
| TypeNew (value : jsstring)
| Add (t_limit t_now t_id : Z) (rnd1 rnd2 : jsstring)
| Delete (now : Z) (i : jsstring)
| StartEdit (n : nat)          (* on the item at index [n] of the list *)
| TypeEdit (value : jsstring)
| SaveEdit (t_limit t_mod : Z)
| CancelEdit
| ClearAlert.

Definition step (url_protocol : jsstring -> option jsstring) (st : App.State)
    (ev : Event) : App.State :=
  match ev with
  | TypeNew value => App.handleNewItemChange value st
  | Add t_limit t_now t_id rnd1 rnd2 =>
      App.addItem url_protocol t_limit t_now t_id rnd1 rnd2 st
  | Delete now i => App.deleteItem now i st
  | StartEdit n =>
      match nth_error (App.items st) n with
      | Some item => App.startEditing item st
      | None => st
      end
  | TypeEdit value => App.handleEditTextChange value st
  | SaveEdit t_limit t_mod => App.saveEdit url_protocol t_limit t_mod st
  | CancelEdit => App.cancelEdit st
  | ClearAlert => App.clearAlert st
  end.

Definition run (url_protocol : jsstring -> option jsstring)
    (evs : list Event) (st : App.State) : App.State :=
  fold_left (step url_protocol) evs st.

(** The characters that the sanitizer turns into entities, the ampersand
    apart: none of them is left in a sanitized text. *)
Definition markup : list Z := [ch "<"; ch ">"; 34; ch "'"; ch "/"].

(** What holds of every stored item: its text is not empty, has no markup
    character left and at most 3000 code units. *)
Definition stored_text_ok (item : App.Item) : Prop :=
  App.text item <> []
  /\ (forall c, In c (App.text item) -> ~ In c markup)
  /\ (length (App.text item) <= 3000)%nat.

(** * Theorems *)

(** ** The matcher finds every match *)

Lemma Matches_length ic r p q :
  Matches ic r p q -> (length (snd q) <= length (snd p))%nat.
Proof. induction 1; simpl in *; lia. Qed.

Lemma star_loop_complete ic r (k : pos -> bool) :
  (forall p q, Matches ic r p q ->
     forall k', k' q = true -> mtch ic r p k' = true) ->
  forall n p q,
    Matches ic (Star r) p q -> (length (snd p) <= n)%nat -> k q = true ->
    (fix loop (n : nat) (p : pos) {struct n} : bool :=
       match n with
       | O => k p
       | S n' =>
           if mtch ic r p
                (fun q =>
                   if (length (snd q) <? length (snd p))%nat
                   then loop n' q else false)
           then true else k p
       end) n p = true.
Proof.
  intros IH n. induction n as [|n IHn]; intros p q HM Hlen Hk.
  - inversion HM; subst; [assumption | lia].
  - inversion HM; subst.
    + rewrite Hk. destruct (mtch ic r q _); reflexivity.
    + erewrite IH; [reflexivity | eassumption |].
      match goal with H : (_ < _)%nat |- _ =>
        apply Nat.ltb_lt in H; rewrite H end.
      eapply IHn; [eassumption | | assumption].
      match goal with H : (_ <? _)%nat = true |- _ =>
        apply Nat.ltb_lt in H; lia end.
Qed.

Lemma mtch_complete ic r p q :
  Matches ic r p q -> forall k, k q = true -> mtch ic r p k = true.
Proof.
  revert p q. induction r; intros p q HM k Hk;
    try (inversion HM; subst; simpl;
         repeat match goal with H : _ = true |- _ => rewrite H end;
         solve [reflexivity | assumption]).
  - inversion HM; subst. simpl.
    eapply IHr1; [eassumption|]. eapply IHr2; eassumption.
  - inversion HM; subst; simpl.
    + erewrite IHr1; [reflexivity | eassumption | assumption].
    + rewrite (IHr2 _ _ ltac:(eassumption) k Hk).
      destruct (mtch ic r1 p k); reflexivity.
  - simpl. eapply star_loop_complete; eauto.
  - inversion HM; subst. simpl.
    match goal with H : mtch _ _ _ _ = false |- _ => rewrite H end.
    assumption.
Qed.

Lemma search_complete ic r acc pre rest q :
  Matches ic r (rev pre ++ acc, rest) q -> search ic r acc (pre ++ rest) = true.
Proof.
  revert acc. induction pre as [|x pre IH]; intros acc HM.
  - simpl in *.
    assert (E : mtch ic r (acc, rest) (fun _ => true) = true)
      by (eapply mtch_complete; [eassumption | reflexivity]).
    destruct rest; simpl; rewrite E; reflexivity.
  - simpl. rewrite IH; [|simpl in HM; rewrite <- app_assoc in HM; exact HM].
    destruct (mtch ic r (acc, x :: pre ++ rest) _); reflexivity.
Qed.

Lemma test_complete re pre rest q :
  Matches (ignoreCase re) (pattern re) (rev pre, rest) q ->
  test re (pre ++ rest) = true.
Proof.
  intros HM. unfold test. eapply search_complete.
  rewrite app_nil_r. exact HM.
Qed.

Lemma Matches_lit ic w : forall u pre rest,
  lit_eq ic w u = true ->
  Matches ic (lit w) (pre, u ++ rest) (rev u ++ pre, rest).
Proof.
  induction w as [|c w IH]; intros [|x u] pre rest H; simpl in H;
    try discriminate.
  - constructor.
  - apply andb_true_iff in H as [H1 H2]. simpl.
    econstructor; [constructor; exact H1|].
    rewrite <- app_assoc. simpl. apply IH. exact H2.
Qed.

Lemma Matches_alts ic r rs p q :
  In r rs -> Matches ic r p q -> Matches ic (alts rs) p q.
Proof.
  induction rs as [|r0 rs IH]; intros Hin HM; [destruct Hin|].
  destruct rs as [|r1 rs].
  - destruct Hin as [->|[]]. exact HM.
  - change (alts (r0 :: r1 :: rs)) with (Alt r0 (alts (r1 :: rs))).
    destruct Hin as [->|Hin]; [apply M_AltL; exact HM|].
    apply M_AltR. apply IH; assumption.
Qed.

(** A literal matches only where the input starts with it. *)
Lemma mtch_lit_sound ic w : forall pre s,
  mtch ic (lit w) (pre, s) (fun _ => true) = true ->
  exists u rest, s = u ++ rest /\ lit_eq ic w u = true.
Proof.
  induction w as [|c w IH]; intros pre s H.
  - exists [], s. split; reflexivity.
  - simpl in H. destruct s as [|x s]; [discriminate|].
    destruct (chr_eq ic c x) eqn:H1; [|discriminate]. rename H into H2.
    destruct (IH _ _ H2) as (u & rest & -> & Hu).
    exists (x :: u), rest. split; [reflexivity|].
    simpl. rewrite H1. exact Hu.
Qed.

Lemma lit_eq_length ic w : forall u,
  lit_eq ic w u = true -> length u = length w.
Proof.
  induction w as [|c w IH]; intros [|x u] H; simpl in H; try discriminate;
    [reflexivity|].
  apply andb_true_iff in H as [_ H]. simpl. f_equal. apply IH. exact H.
Qed.

Lemma lit_eq_last ic w c : forall u,
  lit_eq ic (w ++ [c]) u = true ->
  exists u' x, u = u' ++ [x] /\ chr_eq ic c x = true.
Proof.
  induction w as [|d w IH]; intros [|y u] H; simpl in H; try discriminate.
  - destruct u; [|rewrite andb_false_r in H; discriminate].
    rewrite andb_true_r in H. exists [], y. split; [reflexivity | exact H].
  - apply andb_true_iff in H as [_ H].
    destruct (IH _ H) as (u' & x & -> & Hx).
    exists (y :: u'), x. split; [reflexivity | exact Hx].
Qed.

Lemma lit_eq_first ic c w u :
  lit_eq ic (c :: w) u = true ->
  exists x u', u = x :: u' /\ chr_eq ic c x = true.
Proof.
  destruct u as [|x u]; simpl; [discriminate|].
  intros H. apply andb_true_iff in H as [H _]. eauto.
Qed.

Lemma lit_eq_refl w : lit_eq false w w = true.
Proof.
  induction w as [|c w IH]; [reflexivity|].
  simpl. rewrite Z.eqb_refl. exact IH.
Qed.


(** ** Characters *)

Lemma in_range_spec lo hi c : in_range lo hi c = true <-> lo <= c <= hi.
Proof. unfold in_range. rewrite andb_true_iff, !Z.leb_le. tauto. Qed.

Lemma is_word_spec c :
  is_word c = true <->
  97 <= c <= 122 \/ 65 <= c <= 90 \/ 48 <= c <= 57 \/ c = 95.
Proof.
  unfold is_word, in_ranges, word_ranges. simpl.
  rewrite !orb_true_iff, !in_range_spec. unfold ch. simpl. lia.
Qed.

Lemma is_space_spec c :
  is_space c = true <->
  9 <= c <= 13 \/ c = 32 \/ c = 160 \/ c = 0x1680 \/ 0x2000 <= c <= 0x200a
  \/ 0x2028 <= c <= 0x2029 \/ c = 0x202f \/ c = 0x205f \/ c = 0x3000
  \/ c = 0xfeff.
Proof.
  unfold is_space, in_ranges, space_ranges. simpl.
  rewrite !orb_true_iff, !in_range_spec. simpl. lia.
Qed.

Lemma canonicalize_spec c :
  (97 <= c <= 122 /\ canonicalize c = c - 32)
  \/ (~ 97 <= c <= 122 /\ canonicalize c = c).
Proof.
  unfold canonicalize. destruct (in_range (ch "a") (ch "z") c) eqn:E.
  - left. apply in_range_spec in E. unfold ch in E. simpl in E. tauto.
  - right. split; [|reflexivity]. intros H.
    assert (in_range (ch "a") (ch "z") c = true) by (apply in_range_spec; unfold ch; simpl; lia).
    congruence.
Qed.

Lemma is_word_canonicalize c : is_word (canonicalize c) = is_word c.
Proof.
  apply eq_iff_eq_true. rewrite !is_word_spec.
  destruct (canonicalize_spec c) as [[H ->]|[H ->]]; lia.
Qed.

Lemma is_space_canonicalize c : is_space (canonicalize c) = is_space c.
Proof.
  apply eq_iff_eq_true. rewrite !is_space_spec.
  destruct (canonicalize_spec c) as [[H ->]|[H ->]]; [lia | tauto].
Qed.

Lemma chr_eq_word c x : chr_eq true c x = true -> is_word x = is_word c.
Proof.
  unfold chr_eq. intros H. apply Z.eqb_eq in H.
  rewrite <- (is_word_canonicalize x), <- H. apply is_word_canonicalize.
Qed.

Lemma chr_eq_space c x : chr_eq true c x = true -> is_space x = is_space c.
Proof.
  unfold chr_eq. intros H. apply Z.eqb_eq in H.
  rewrite <- (is_space_canonicalize x), <- H. apply is_space_canonicalize.
Qed.

Lemma not_lt_refuses c :
  cls_match true true [(ch "<", ch "<")] c = false -> c = ch "<".
Proof.
  unfold cls_match, in_ranges. simpl. rewrite !orb_false_r.
  intros H. apply negb_false_iff, orb_true_iff in H.
  destruct H as [H|H]; apply in_range_spec in H; unfold ch in *; simpl in *;
    [lia|].
  unfold swapcase in H.
  destruct (in_range (ch "a") (ch "z") c) eqn:E1;
    [apply in_range_spec in E1; unfold ch in E1; simpl in E1; lia|].
  destruct (in_range (ch "A") (ch "Z") c) eqn:E2;
    [apply in_range_spec in E2; unfold ch in E2; simpl in E2; lia|].
  lia.
Qed.

Lemma lit_eq_forall (P : Z -> bool) w : forall u,
  (forall c x, chr_eq true c x = true -> P x = P c) ->
  lit_eq true w u = true -> forallb P w = true -> forallb P u = true.
Proof.
  induction w as [|c w IH]; intros [|x u] HP H Hw; simpl in *;
    try discriminate; [reflexivity|].
  apply andb_true_iff in H as [H1 H2]. apply andb_true_iff in Hw as [Hc Hw].
  rewrite (HP _ _ H1), Hc. simpl. apply IH; assumption.
Qed.

(** ** Trimming keeps what lies between two non-space characters *)

Lemma trimStart_keeps u post : forall pre,
  (match u with x :: _ => is_space x = false | [] => False end) ->
  exists pre', trimStart (pre ++ u ++ post) = pre' ++ u ++ post.
Proof.
  intros pre Hu. induction pre as [|c pre IH].
  - exists []. destruct u as [|x u]; [destruct Hu|]. simpl. rewrite Hu. reflexivity.
  - simpl. destruct (is_space c).
    + exact IH.
    + exists (c :: pre). reflexivity.
Qed.

Lemma trim_keeps pre u post :
  (match u with x :: _ => is_space x = false | [] => False end) ->
  (match rev u with x :: _ => is_space x = false | [] => False end) ->
  exists pre' post', trim (pre ++ u ++ post) = pre' ++ u ++ post'.
Proof.
  intros H1 H2. unfold trim.
  destruct (trimStart_keeps u post pre H1) as [pre' ->].
  rewrite !rev_app_distr, <- app_assoc.
  destruct (trimStart_keeps (rev u) (rev pre') (rev post) H2) as [post' ->].
  exists pre', (rev post').
  rewrite !rev_app_distr, !rev_involutive, <- app_assoc. reflexivity.
Qed.

Lemma forallb_hd (P : Z -> bool) u :
  forallb P u = true -> u <> [] ->
  match u with x :: _ => P x = true | [] => False end.
Proof.
  destruct u as [|x u]; [congruence|]. simpl.
  intros H _. apply andb_true_iff in H as [H _]. exact H.
Qed.

Lemma forallb_rev (P : Z -> bool) u : forallb P (rev u) = forallb P u.
Proof.
  induction u as [|x u IH]; [reflexivity|].
  simpl. rewrite forallb_app, IH. simpl. rewrite andb_true_r. apply andb_comm.
Qed.

Lemma rev_not_nil (u : jsstring) : u <> [] -> rev u <> [].
Proof.
  destruct u as [|x u]; [congruence|]. simpl. intros _ H.
  apply app_eq_nil in H as [_ H]. discriminate.
Qed.

(** An occurrence, in any casing, of a word without white space survives
    trimming. *)
Lemma trim_contains_ci w s :
  w <> [] -> forallb (fun c => negb (is_space c)) w = true ->
  contains_ci w s -> contains_ci w (trim s).
Proof.
  intros Hw Hns (pre & u & post & -> & Hu).
  assert (Hlen : u <> []).
  { intros ->. apply lit_eq_length in Hu. destruct w; [congruence | discriminate]. }
  assert (Hall : forallb (fun c => negb (is_space c)) u = true).
  { eapply lit_eq_forall; [|exact Hu|exact Hns].
    intros c x E. rewrite (chr_eq_space _ _ E). reflexivity. }
  destruct (trim_keeps pre u post) as (pre' & post' & E).
  - pose proof (forallb_hd _ _ Hall Hlen) as H.
    destruct u; [exact H|]. apply negb_true_iff. exact H.
  - rewrite <- forallb_rev in Hall.
    pose proof (forallb_hd _ _ Hall (rev_not_nil _ Hlen)) as H.
    destruct (rev u); [exact H|]. apply negb_true_iff. exact H.
  - exists pre', u, post'. split; assumption.
Qed.

(** ** Patterns that are one literal *)

Lemma test_lit_ci w s : contains_ci w s -> test (gi (lit w)) s = true.
Proof.
  intros (pre & u & post & -> & Hu).
  eapply test_complete. simpl. apply Matches_lit. exact Hu.
Qed.

Lemma test_lit w s : contains w s -> test (g (lit w)) s = true.
Proof.
  intros (pre & post & ->).
  eapply test_complete. simpl. apply Matches_lit. apply lit_eq_refl.
Qed.

Lemma In_contains c (s : jsstring) : In c s -> contains [c] s.
Proof.
  intros H. apply in_split in H as (pre & post & ->). exists pre, post. reflexivity.
Qed.

(** ** The script-element pattern *)

(** From any point of the body, the part of the pattern between the
    opening and the closing tag reaches a closing tag. *)
Lemma script_body_scan close post : forall body pre,
  lit_eq true (js "</script>") close = true ->
  exists p1 q close' post',
    Matches true (Star not_lt) (pre, body ++ close ++ post) p1
    /\ Matches true
         (Star (NotAhead (str "</script>") >> Chr (ch "<") >> Star not_lt))
         p1 q
    /\ snd q = close' ++ post'
    /\ lit_eq true (js "</script>") close' = true.
Proof.
  intros body pre Hclose. revert pre.
  induction body as [|c body IH]; intros pre.
  - exists (pre, close ++ post), (pre, close ++ post), close, post.
    repeat split; try constructor; assumption.
  - destruct (IH (c :: pre)) as (p1 & q & close' & post' & HX & HG & Hq & Hc).
    simpl.
    destruct (cls_match true true [(ch "<", ch "<")] c) eqn:Ecls.
    + exists p1, q, close', post'. repeat split; try assumption.
      eapply M_StarS; [apply M_Cls; exact Ecls | | exact HX].
      apply Matches_length in HX. simpl in *. lia.
    + destruct (mtch true (str "</script>") (pre, c :: body ++ close ++ post)
                  (fun _ => true)) eqn:Elook.
      * apply mtch_lit_sound in Elook as (u & rest & E & Hu).
        exists (pre, c :: body ++ close ++ post),
               (pre, c :: body ++ close ++ post), u, rest.
        repeat split; try constructor; assumption.
      * exists (pre, c :: body ++ close ++ post), q, close', post'.
        repeat split; try assumption; [constructor|].
        eapply M_StarS; [| | exact HG].
        -- eapply M_Seq; [apply M_NotAhead; exact Elook|].
           eapply M_Seq; [apply M_Chr | exact HX].
           rewrite (not_lt_refuses c Ecls). reflexivity.
        -- apply Matches_length in HX. simpl in *. lia.
Qed.

Lemma script_element_matches s :
  closed_script_element s -> test (gi script_element) s = true.
Proof.
  intros (pre & open & body & close & post & -> & Hopen & Hclose & Hbody).
  destruct (script_body_scan close post body (rev open ++ rev pre) Hclose)
    as (p1 & q & close' & post' & HX & HG & Hq & Hc).
  eapply test_complete with (q := (rev close' ++ fst q, post')). simpl.
  eapply M_Seq; [apply (Matches_lit true (js "<script")); exact Hopen|].
  eapply M_Seq.
  { apply M_WordB.
    assert (Hb : word_before (rev open ++ rev pre, body ++ close ++ post) = true).
    { clear -Hopen.
      change (js "<script") with (js "<scrip" ++ [ch "t"]) in Hopen.
      apply lit_eq_last in Hopen as (u' & x & -> & Hx).
      unfold word_before. rewrite rev_app_distr. simpl.
      rewrite (chr_eq_word _ _ Hx). reflexivity. }
    assert (Ha : word_after (rev open ++ rev pre, body ++ close ++ post) = false).
    { clear -Hclose Hbody. unfold word_after. simpl.
      destruct body as [|c body]; simpl; [|exact Hbody].
      change (js "</script>") with (ch "<" :: js "/script>") in Hclose.
      apply lit_eq_first in Hclose as (x & u' & -> & Hx). simpl.
      rewrite (chr_eq_word _ _ Hx). reflexivity. }
    rewrite Hb, Ha. reflexivity. }
  eapply M_Seq; [exact HX|].
  eapply M_Seq; [exact HG|].
  destruct q as [qpre qrest]. simpl in Hq. subst qrest. simpl.
  apply (Matches_lit true (js "</script>")). exact Hc.
Qed.

Lemma existsb_first (f : RegExp -> bool) r rs :
  f r = true -> existsb f (r :: rs) = true.
Proof. intros H. simpl. rewrite H. reflexivity. Qed.

Lemma validateInput_script_element input :
  closed_script_element input -> validateInput input = false.
Proof.
  intros H. unfold validateInput.
  destruct (negb (truthy input) || negb (truthy (trim input))); [reflexivity|].
  destruct (1000 <? length input)%nat; [reflexivity|].
  unfold maliciousPatterns.
  rewrite existsb_first; [reflexivity|].
  apply script_element_matches. exact H.
Qed.

Lemma isValidContent_script input :
  contains_ci (js "<script") input -> isValidContent input = false.
Proof.
  intros H. unfold isValidContent.
  assert (Hx : existsb (fun pattern => test pattern (trim input)) xssPatterns = true).
  { apply existsb_exists. exists (gi (str "<script")). split.
    - unfold xssPatterns. simpl. tauto.
    - apply test_lit_ci. apply trim_contains_ci; [discriminate | reflexivity | exact H]. }
  rewrite Hx. apply andb_false_r.
Qed.

(** ** The validation pipeline *)

Ltac pipeline :=
  unfold App.validateAndSanitizeInput, crud_allowed, rejected_as in *;
  match goal with
  | |- context [isAllowed ?t ?k ?rl] =>
      let E := fresh "Elimit" in
      destruct (isAllowed t k rl) as [allowed rl'] eqn:E
  end;
  simpl in *.

(** C1 (as amended): an input that contains [<script] in any casing and
    passes the rate limiter and the length check is always rejected, by the
    malicious-pattern stage when [validateInput] fails and by the
    injection scan otherwise; a script element with its closing tag makes
    [validateInput] fail, so it is rejected by the malicious-pattern stage. *)
Theorem script_tag_rejected url now input e :
  crud_allowed now e -> (length input <= 500)%nat ->
  contains_ci (js "<script") input ->
  (if validateInput input
   then rejected_as SUSPICIOUS_CONTENT_DETECTED
          "Potentially unsafe content detected." e
          (App.validateAndSanitizeInput url now input e)
   else rejected_as MALICIOUS_INPUT_DETECTED
          "Invalid input detected. Please check your content." e
          (App.validateAndSanitizeInput url now input e))
  /\ (closed_script_element input ->
      rejected_as MALICIOUS_INPUT_DETECTED
        "Invalid input detected. Please check your content." e
        (App.validateAndSanitizeInput url now input e)).
Proof.
  intros Hallow Hlen Hscript.
  assert (Hmain :
    if validateInput input
    then rejected_as SUSPICIOUS_CONTENT_DETECTED
           "Potentially unsafe content detected." e
           (App.validateAndSanitizeInput url now input e)
    else rejected_as MALICIOUS_INPUT_DETECTED
           "Invalid input detected. Please check your content." e
           (App.validateAndSanitizeInput url now input e)).
  { pose proof (isValidContent_script input Hscript) as Hcontent.
    pipeline. subst allowed. simpl.
    unfold validateLength. apply Nat.leb_le in Hlen. rewrite Hlen. simpl.
    destruct (validateInput input); simpl.
    - rewrite Hcontent. simpl. split; reflexivity.
    - split; reflexivity. }
  split; [exact Hmain|].
  intros Hclosed. rewrite (validateInput_script_element input Hclosed) in Hmain.
  exact Hmain.
Qed.

Lemma script_tag_rejected_witness :
  rejected_as MALICIOUS_INPUT_DETECTED
    "Invalid input detected. Please check your content." (mkEnv rateLimiter [])
    (App.validateAndSanitizeInput (fun _ => None) 0
       (js "<Script src=x>alert(1)</SCRIPT>") (mkEnv rateLimiter [])).
Proof.
  apply (script_tag_rejected (fun _ => None) 0
           (js "<Script src=x>alert(1)</SCRIPT>") (mkEnv rateLimiter [])).
  - vm_compute. reflexivity.
  - vm_compute. lia.
  - exists [], (js "<Script"), (js " src=x>alert(1)</SCRIPT>").
    split; reflexivity.
  - exists [], (js "<Script"), (js " src=x>alert(1)"), (js "</SCRIPT>"), [].
    repeat split; reflexivity.
Defined.

(** C1, as stated, fails: an opening script tag without a closing tag
    passes the malicious-pattern stage and is rejected by the next one. *)
Lemma script_tag_unclosed_counterexample :
  crud_allowed 0 (mkEnv rateLimiter [])
  /\ (length (js "<script>") <= 500)%nat
  /\ contains_ci (js "<script") (js "<script>")
  /\ rejected_as SUSPICIOUS_CONTENT_DETECTED
       "Potentially unsafe content detected." (mkEnv rateLimiter [])
       (App.validateAndSanitizeInput (fun _ => None) 0 (js "<script>")
          (mkEnv rateLimiter []))
  /\ ~ rejected_as MALICIOUS_INPUT_DETECTED
         "Invalid input detected. Please check your content."
         (mkEnv rateLimiter [])
         (App.validateAndSanitizeInput (fun _ => None) 0 (js "<script>")
            (mkEnv rateLimiter [])).
Proof.
  split; [vm_compute; reflexivity|].
  split; [vm_compute; lia|].
  split; [exists [], (js "<script"), (js ">"); split; reflexivity|].
  split; [split; vm_compute; reflexivity|].
  intros [H _]. vm_compute in H. discriminate.
Qed.

(** C7: an input longer than 500 code units that passes the rate limiter
    is rejected as too long, whatever it contains. *)
Theorem too_long_rejected url now input e :
  crud_allowed now e -> (500 < length input)%nat ->
  rejected_as INPUT_TOO_LONG
    "Input is too long. Maximum 500 characters allowed." e
    (App.validateAndSanitizeInput url now input e).
Proof.
  intros Hallow Hlen. pipeline. subst allowed. simpl.
  unfold validateLength.
  apply Nat.leb_gt in Hlen. rewrite Hlen. simpl. split; reflexivity.
Qed.

Lemma too_long_rejected_witness :
  rejected_as INPUT_TOO_LONG
    "Input is too long. Maximum 500 characters allowed." (mkEnv rateLimiter [])
    (App.validateAndSanitizeInput (fun _ => None) 0
       (repeat (ch "<") 501) (mkEnv rateLimiter [])).
Proof.
  apply (too_long_rejected (fun _ => None) 0 (repeat (ch "<") 501)
           (mkEnv rateLimiter [])).
  - vm_compute. reflexivity.
  - rewrite repeat_length. lia.
Defined.

(** C8 (as amended): a blank input (empty, or white space only) that
    passes the rate limiter and the length check is rejected by
    [validateInput], with the event and the message of a malicious
    pattern; the pipeline has no reason of its own for emptiness. *)
Theorem blank_rejected_as_invalid url now input e :
  crud_allowed now e -> (length input <= 500)%nat -> trim input = [] ->
  rejected_as MALICIOUS_INPUT_DETECTED
    "Invalid input detected. Please check your content." e
    (App.validateAndSanitizeInput url now input e).
Proof.
  intros Hallow Hlen Hblank. pipeline. subst allowed. simpl.
  unfold validateLength. apply Nat.leb_le in Hlen. rewrite Hlen. simpl.
  unfold validateInput. rewrite Hblank. simpl. rewrite orb_true_r. simpl.
  split; reflexivity.
Qed.

Lemma blank_rejected_as_invalid_witness :
  rejected_as MALICIOUS_INPUT_DETECTED
    "Invalid input detected. Please check your content." (mkEnv rateLimiter [])
    (App.validateAndSanitizeInput (fun _ => None) 0 (js "   ")
       (mkEnv rateLimiter [])).
Proof.
  apply (blank_rejected_as_invalid (fun _ => None) 0 (js "   ")
           (mkEnv rateLimiter [])).
  - vm_compute. reflexivity.
  - vm_compute. lia.
  - vm_compute. reflexivity.
Defined.

(** C8, as stated, fails: the empty input and an input with a malicious
    pattern are rejected with one and the same reason. *)
Lemma blank_reason_not_distinct_counterexample :
  crud_allowed 0 (mkEnv rateLimiter [])
  /\ trim [] = []
  /\ validateInput (js "<iframe>") = false
  /\ fst (App.validateAndSanitizeInput (fun _ => None) 0 []
            (mkEnv rateLimiter []))
     = fst (App.validateAndSanitizeInput (fun _ => None) 0 (js "<iframe>")
              (mkEnv rateLimiter []))
  /\ audit (snd (App.validateAndSanitizeInput (fun _ => None) 0 []
                   (mkEnv rateLimiter [])))
     = audit (snd (App.validateAndSanitizeInput (fun _ => None) 0
                     (js "<iframe>") (mkEnv rateLimiter [])))
  /\ rejected_as MALICIOUS_INPUT_DETECTED
       "Invalid input detected. Please check your content."
       (mkEnv rateLimiter [])
       (App.validateAndSanitizeInput (fun _ => None) 0 []
          (mkEnv rateLimiter [])).
Proof.
  repeat split; vm_compute; reflexivity.
Qed.

Lemma cons_neq {A} (x : A) (l : list A) : l <> x :: l.
Proof.
  intros H. apply (f_equal (@length A)) in H. simpl in H. lia.
Qed.

(** C9: in the [text] context the context validator is the conjunction
    of [validateInput] and [isValidContent], so an input that passed both
    passes it, and no call of the pipeline is rejected by the context
    stage: neither its message nor its audit event is ever produced. *)
Theorem context_stage_unreachable :
  (forall url input,
     validateInput input = true -> isValidContent input = true ->
     validateForContext url input CtxText = true)
  /\ (forall url now input e,
        App.error (fst (App.validateAndSanitizeInput url now input e))
          <> Some "Content failed security validation."%string
        /\ audit (snd (App.validateAndSanitizeInput url now input e))
          <> CONTEXT_VALIDATION_FAILED :: audit e).
Proof.
  split.
  - intros url input H1 H2. simpl. rewrite H1, H2. reflexivity.
  - intros url now input e. pipeline.
    destruct allowed; simpl; [|split; [discriminate | congruence]].
    destruct (validateLength input 500); simpl;
      [|split; [discriminate | congruence]].
    destruct (validateInput input); simpl;
      [|split; [discriminate | congruence]].
    destruct (isValidContent input); simpl;
      [|split; [discriminate | congruence]].
    split; [discriminate | apply cons_neq].
Qed.

Lemma context_stage_unreachable_witness :
  validateForContext (fun _ => None) (js "Buy milk") CtxText = true.
Proof.
  apply (proj1 context_stage_unreachable (fun _ => None) (js "Buy milk")).
  - vm_compute. reflexivity.
  - vm_compute. reflexivity.
Defined.

(** What an accepted input went through. *)
Lemma accepted_inv url now input e :
  App.isValid (fst (App.validateAndSanitizeInput url now input e)) = true ->
  crud_allowed now e
  /\ validateLength input 500 = true
  /\ validateInput input = true
  /\ isValidContent input = true
  /\ fst (App.validateAndSanitizeInput url now input e)
     = App.mkValidation true (sanitizeHtml (trim input)) None.
Proof.
  pipeline.
  destruct allowed; simpl; [|discriminate].
  destruct (validateLength input 500); simpl; [|discriminate].
  destruct (validateInput input); simpl; [|discriminate].
  destruct (isValidContent input); simpl; [|discriminate].
  intros _. repeat split; reflexivity.
Qed.

Lemma isValidContent_inv content :
  isValidContent content = true ->
  (forall re, In re sqlPatterns -> test re (trim content) = false)
  /\ (forall re, In re xssPatterns -> test re (trim content) = false).
Proof.
  unfold isValidContent. intros H.
  apply andb_true_iff in H as [H1 H2].
  apply negb_true_iff in H1, H2.
  split; intros re Hin.
  - destruct (test re (trim content)) eqn:E; [|reflexivity].
    assert (existsb (fun pattern => test pattern (trim content)) sqlPatterns = true)
      by (apply existsb_exists; eauto).
    congruence.
  - destruct (test re (trim content)) eqn:E; [|reflexivity].
    assert (existsb (fun pattern => test pattern (trim content)) xssPatterns = true)
      by (apply existsb_exists; eauto).
    congruence.
Qed.

Lemma test_sql_punctuation w s :
  In w sqlPunctuation -> contains w s ->
  test (g (alts (map lit sqlPunctuation))) s = true.
Proof.
  intros Hin (pre & post & ->).
  eapply test_complete with (q := (rev w ++ rev pre, post)).
  change (Matches false (alts (map lit sqlPunctuation))
            (rev pre, w ++ post) (rev w ++ rev pre, post)).
  eapply Matches_alts; [apply in_map; exact Hin|].
  apply Matches_lit. apply lit_eq_refl.
Qed.

Lemma test_sql_keyword kw s :
  In kw sqlKeywords -> whole_word_ci (js kw) s ->
  test (gi (WordB >> alts (map str sqlKeywords) >> WordB)) s = true.
Proof.
  intros Hin (pre & u & post & -> & Hu & Hpre & Hpost).
  assert (Hkw : forallb is_word (js kw) = true /\ js kw <> []).
  { unfold sqlKeywords in Hin. simpl in Hin.
    repeat (destruct Hin as [<-|Hin]; [split; [vm_compute; reflexivity | discriminate]|]).
    destruct Hin. }
  destruct Hkw as [Hword Hne].
  assert (Hune : u <> []).
  { intros ->. apply lit_eq_length in Hu. destruct (js kw); [congruence | discriminate]. }
  assert (Huw : forallb is_word u = true).
  { eapply lit_eq_forall; [|exact Hu|exact Hword].
    intros c x E. apply chr_eq_word. exact E. }
  eapply test_complete with (q := (rev u ++ rev pre, post)).
  change (Matches true (WordB >> alts (map str sqlKeywords) >> WordB)
            (rev pre, u ++ post) (rev u ++ rev pre, post)).
  eapply M_Seq.
  { apply M_WordB. unfold word_before, word_after. simpl.
    pose proof (forallb_hd _ _ Huw Hune) as Hhd.
    destruct u as [|x u]; [destruct Hhd|]. simpl. rewrite Hhd.
    unfold not_word_first in Hpre. destruct (rev pre); [reflexivity|].
    rewrite Hpre. reflexivity. }
  eapply M_Seq.
  { eapply Matches_alts; [apply (in_map str); exact Hin|].
    apply (Matches_lit true (js kw)). exact Hu. }
  apply M_WordB. unfold word_before, word_after. simpl.
  rewrite <- forallb_rev in Huw.
  pose proof (forallb_hd _ _ Huw (rev_not_nil _ Hune)) as Hhd.
  destruct (rev u) as [|x ru]; [destruct Hhd|]. simpl. rewrite Hhd.
  unfold not_word_first in Hpost. destruct post; [reflexivity|].
  rewrite Hpost. reflexivity.
Qed.

(** ** The sanitizer *)

Lemma replace_all_absent c by_ s : ~ In c s -> replace_all c by_ s = s.
Proof.
  unfold replace_all. induction s as [|x s IH]; intros H; [reflexivity|].
  simpl. destruct (Z.eqb_spec x c) as [->|Hne].
  - exfalso. apply H. left. reflexivity.
  - simpl. f_equal. apply IH. intros Hin. apply H. right. exact Hin.
Qed.

Lemma In_replace_all x c by_ s :
  In x (replace_all c by_ s) -> In x by_ \/ In x s.
Proof.
  unfold replace_all. intros H. apply in_flat_map in H as (y & Hy & Hx).
  destruct (y =? c); [left; exact Hx|].
  destruct Hx as [<-|[]]. right. exact Hy.
Qed.

Lemma rejected_by_content url now input e :
  isValidContent input = false ->
  App.isValid (fst (App.validateAndSanitizeInput url now input e)) = false.
Proof.
  intros H.
  destruct (App.isValid (fst (App.validateAndSanitizeInput url now input e)))
    eqn:E; [|reflexivity].
  apply accepted_inv in E as (_ & _ & _ & E & _). congruence.
Qed.

(** C10: the trimmed form of an accepted input has none of the characters
    ' (double quote) ; & | + , none of the substrings -- /* */ , and no
    SQL keyword as a whole word in any casing; so the sanitizer only has
    [<], [>] and [/] left to escape on it, and inputs such as [Tom's list]
    and [1+1] are never accepted. *)
Theorem accepted_content_restricted :
  (forall url now input e,
     App.isValid (fst (App.validateAndSanitizeInput url now input e)) = true ->
     (forall c, In c [ch "'"; 34; ch ";"; ch "&"; ch "|"; ch "+"] ->
                ~ In c (trim input))
     /\ (forall w, In w [js "--"; js "/*"; js "*/"] ->
                   ~ contains w (trim input))
     /\ (forall kw,
           In kw ["SELECT"; "INSERT"; "UPDATE"; "DELETE"; "DROP"; "CREATE";
                  "ALTER"; "EXEC"; "UNION"; "SCRIPT"]%string ->
           ~ whole_word_ci (js kw) (trim input))
     /\ App.sanitized (fst (App.validateAndSanitizeInput url now input e))
        = replace_all (ch "/") (js "&#x2F;")
            (replace_all (ch ">") (js "&gt;")
               (replace_all (ch "<") (js "&lt;") (trim input))))
  /\ (forall url now e,
        App.isValid (fst (App.validateAndSanitizeInput url now
                            (js "Tom's list") e)) = false
        /\ App.isValid (fst (App.validateAndSanitizeInput url now
                               (js "1+1") e)) = false).
Proof.
  split.
  - intros url now input e Hacc.
    apply accepted_inv in Hacc as (_ & _ & _ & Hcontent & Hres).
    apply isValidContent_inv in Hcontent as [Hsql _].
    assert (Hkw : test (gi (WordB >> alts (map str sqlKeywords) >> WordB))
                    (trim input) = false)
      by (apply Hsql; simpl; tauto).
    assert (Hpu : test (g (alts (map lit sqlPunctuation))) (trim input) = false)
      by (apply Hsql; simpl; tauto).
    assert (Hchars : forall c,
              In c [ch "'"; 34; ch ";"; ch "&"; ch "|"; ch "+"] ->
              ~ In c (trim input)).
    { intros c Hc Hin.
      assert (In [c] sqlPunctuation).
      { unfold sqlPunctuation. simpl in Hc |- *.
        repeat (destruct Hc as [<-|Hc]; [tauto|]). destruct Hc. }
      rewrite (test_sql_punctuation [c] (trim input)) in Hpu;
        [discriminate | assumption | apply In_contains; exact Hin]. }
    split; [exact Hchars|].
    split.
    { intros w Hw Hin.
      rewrite (test_sql_punctuation w (trim input)) in Hpu;
        [discriminate | | exact Hin].
      unfold sqlPunctuation. simpl in Hw |- *.
      repeat (destruct Hw as [<-|Hw]; [tauto|]). destruct Hw. }
    split.
    { intros kw Hin Hocc.
      rewrite (test_sql_keyword kw (trim input)) in Hkw;
        [discriminate | exact Hin | exact Hocc]. }
    rewrite Hres. simpl. unfold sanitizeHtml.
    assert (Hamp : ~ In (ch "&") (trim input)) by (apply Hchars; simpl; tauto).
    assert (Hquo : ~ In 34 (trim input)) by (apply Hchars; simpl; tauto).
    assert (Hapo : ~ In (ch "'") (trim input)) by (apply Hchars; simpl; tauto).
    rewrite (replace_all_absent (ch "&")) by exact Hamp.
    rewrite (replace_all_absent 34).
    2:{ intros H. apply In_replace_all in H as [H|H];
          [vm_compute in H; intuition discriminate|].
        apply In_replace_all in H as [H|H];
          [vm_compute in H; intuition discriminate | contradiction]. }
    rewrite (replace_all_absent (ch "'")).
    2:{ intros H. apply In_replace_all in H as [H|H];
          [vm_compute in H; intuition discriminate|].
        apply In_replace_all in H as [H|H];
          [vm_compute in H; intuition discriminate | contradiction]. }
    reflexivity.
  - intros url now e. split; apply rejected_by_content; vm_compute; reflexivity.
Qed.

Lemma accepted_content_restricted_witness :
  ~ In (ch "&") (trim (js "  Buy milk ")).
Proof.
  apply (proj1 accepted_content_restricted (fun _ => None) 0
           (js "  Buy milk ") (mkEnv rateLimiter [])).
  - vm_compute. reflexivity.
  - simpl. tauto.
Defined.

(** The six passes of the sanitizer act on one character as [escape]. *)
Lemma sanitizeHtml_one c : sanitizeHtml [c] = escape c.
Proof.
  unfold sanitizeHtml, escape.
  destruct (Z.eqb_spec c (ch "&")) as [->|H1]; [vm_compute; reflexivity|].
  destruct (Z.eqb_spec c (ch "<")) as [->|H2]; [vm_compute; reflexivity|].
  destruct (Z.eqb_spec c (ch ">")) as [->|H3]; [vm_compute; reflexivity|].
  destruct (Z.eqb_spec c 34) as [->|H4]; [vm_compute; reflexivity|].
  destruct (Z.eqb_spec c (ch "'")) as [->|H5]; [vm_compute; reflexivity|].
  destruct (Z.eqb_spec c (ch "/")) as [->|H6]; [vm_compute; reflexivity|].
  rewrite (replace_all_absent (ch "&") _ [c]) by (intros [E|[]]; congruence).
  rewrite (replace_all_absent (ch "<") _ [c]) by (intros [E|[]]; congruence).
  rewrite (replace_all_absent (ch ">") _ [c]) by (intros [E|[]]; congruence).
  rewrite (replace_all_absent 34 _ [c]) by (intros [E|[]]; congruence).
  rewrite (replace_all_absent (ch "'") _ [c]) by (intros [E|[]]; congruence).
  rewrite (replace_all_absent (ch "/") _ [c]) by (intros [E|[]]; congruence).
  reflexivity.
Qed.

Lemma sanitizeHtml_app s t : sanitizeHtml (s ++ t) = sanitizeHtml s ++ sanitizeHtml t.
Proof.
  unfold sanitizeHtml, replace_all. rewrite !flat_map_app. reflexivity.
Qed.

Lemma sanitizeHtml_escape s : sanitizeHtml s = flat_map escape s.
Proof.
  induction s as [|c s IH]; [reflexivity|].
  change (c :: s) with ([c] ++ s).
  rewrite sanitizeHtml_app, sanitizeHtml_one, IH. reflexivity.
Qed.

(** C3 (as amended): the string [<b>&] (double quote) ['/] has seven
    characters and is sanitized to
    [&lt;b&gt;&amp;&quot;&#x27;&#x2F;]; and on every input the six passes,
    ampersand first, amount to replacing each character by its entity,
    so no entity is escaped again. *)
Theorem sanitize_entities :
  length (js "<b>&" ++ [34] ++ js "'/") = 7%nat
  /\ sanitizeHtml (js "<b>&" ++ [34] ++ js "'/")
     = js "&lt;b&gt;&amp;&quot;&#x27;&#x2F;"
  /\ (forall input, sanitizeHtml input = flat_map escape input).
Proof.
  split; [reflexivity|].
  split; [vm_compute; reflexivity|].
  exact sanitizeHtml_escape.
Qed.

(** C3, as stated, fails on the length: the string it names has seven
    characters, and the eight characters of its spelling with a backslash
    before the double quote are not sanitized to the stated result. *)
Lemma sanitize_eight_characters_counterexample :
  length (js "<b>&" ++ [34] ++ js "'/") <> 8%nat
  /\ length (js "<b>&\" ++ [34] ++ js "'/") = 8%nat
  /\ sanitizeHtml (js "<b>&\" ++ [34] ++ js "'/")
     <> js "&lt;b&gt;&amp;&quot;&#x27;&#x2F;".
Proof.
  split; [vm_compute; discriminate|].
  split; [reflexivity|].
  vm_compute. discriminate.
Qed.

(** ** The rate limiter *)

Lemma filter_all {A} (f : A -> bool) l :
  (forall x, In x l -> f x = true) -> List.filter f l = l.
Proof.
  induction l as [|x l IH]; intros H; [reflexivity|].
  simpl. rewrite (H x) by (left; reflexivity).
  f_equal. apply IH. intros y Hy. apply H. right. exact Hy.
Qed.

Lemma filter_length_le {A} (f : A -> bool) l :
  (length (List.filter f l) <= length l)%nat.
Proof.
  induction l as [|x l IH]; simpl; [lia|]. destruct (f x); simpl; lia.
Qed.

(** A call made while fewer than [maxAttempts] stored timestamps are in
    the window is allowed and appends its timestamp to those kept. *)
Lemma isAllowed_accepts now key rl :
  Z.of_nat (length (List.filter (fun time => now - time <? windowMs rl)
                      (stored key rl))) < maxAttempts rl ->
  fst (isAllowed now key rl) = true
  /\ stored key (snd (isAllowed now key rl))
     = List.filter (fun time => now - time <? windowMs rl) (stored key rl)
       ++ [now]
  /\ maxAttempts (snd (isAllowed now key rl)) = maxAttempts rl
  /\ windowMs (snd (isAllowed now key rl)) = windowMs rl.
Proof.
  intros H. unfold isAllowed, stored in *.
  destruct (Z.geb_spec
              (Z.of_nat (length (List.filter (fun time => now - time <? windowMs rl)
                                   (default [] (attempts rl !! key)))))
              (maxAttempts rl)) as [Hge|Hlt]; [lia|].
  simpl. rewrite lookup_insert_eq. simpl. repeat split; reflexivity.
Qed.

(** A call made while [maxAttempts] stored timestamps are in the window
    is refused and leaves the limiter as it was. *)
Lemma isAllowed_refuses now key rl :
  maxAttempts rl
  <= Z.of_nat (length (List.filter (fun time => now - time <? windowMs rl)
                         (stored key rl))) ->
  isAllowed now key rl = (false, rl).
Proof.
  intros H. unfold isAllowed, stored in *.
  destruct (Z.geb_spec
              (Z.of_nat (length (List.filter (fun time => now - time <? windowMs rl)
                                   (default [] (attempts rl !! key)))))
              (maxAttempts rl)) as [Hge|Hlt]; [reflexivity | lia].
Qed.

(** Calls that all fall in one window, up to the limit: every one is
    allowed and the timestamps pile up in order. *)
Lemma isAllowed_run_within key : forall ts rl,
  (forall a b, In a (stored key rl ++ ts) -> In b ts -> b - a < windowMs rl) ->
  Z.of_nat (length (stored key rl) + length ts) <= maxAttempts rl ->
  fst (isAllowed_run key ts rl) = repeat true (length ts)
  /\ stored key (snd (isAllowed_run key ts rl)) = stored key rl ++ ts
  /\ maxAttempts (snd (isAllowed_run key ts rl)) = maxAttempts rl
  /\ windowMs (snd (isAllowed_run key ts rl)) = windowMs rl.
Proof.
  induction ts as [|t ts IH]; intros rl Hwin Hmax.
  - simpl. rewrite app_nil_r. repeat split; reflexivity.
  - assert (Hkeep : List.filter (fun time => t - time <? windowMs rl) (stored key rl)
                    = stored key rl).
    { apply filter_all. intros a Ha. apply Z.ltb_lt.
      apply Hwin; [apply in_or_app; left; exact Ha | left; reflexivity]. }
    destruct (isAllowed_accepts t key rl) as (Hb & Hst & Hm & Hw).
    { rewrite Hkeep. simpl in Hmax. lia. }
    rewrite Hkeep in Hst.
    simpl. destruct (isAllowed t key rl) as [b rl'] eqn:E. simpl in *. subst b.
    destruct (IH rl') as (Hbs & Hst' & Hm' & Hw').
    { rewrite Hst, Hw. intros a b Ha Hb. apply Hwin; [|right; exact Hb].
      rewrite <- app_assoc in Ha. exact Ha. }
    { rewrite Hst, Hm, length_app. simpl. simpl in Hmax. lia. }
    destruct (isAllowed_run key ts rl') as [bs rl''] eqn:E'. simpl in *.
    rewrite Hbs, Hst', Hst, Hm', Hw', <- app_assoc. repeat split; congruence.
Qed.

(** C2: on a fresh limiter of 10 attempts per 60000 ms, ten calls for one
    key that fall in one window are all allowed; an eleventh call in that
    window is refused and leaves the limiter, so the stored timestamps,
    unchanged; a call 60000 ms or more after the first one is allowed. *)
Theorem rate_limiter_window (k : jsstring) (t1 : Z) (ts : list Z) (t11 t12 : Z) :
  length ts = 9%nat ->
  (forall a b, In a (t1 :: ts) -> In b (t1 :: ts ++ [t11]) -> b - a < 60000) ->
  60000 < t12 - t1 ->
  fst (isAllowed_run k (t1 :: ts) (newRateLimiter 10 60000)) = repeat true 10
  /\ isAllowed t11 k (snd (isAllowed_run k (t1 :: ts) (newRateLimiter 10 60000)))
     = (false, snd (isAllowed_run k (t1 :: ts) (newRateLimiter 10 60000)))
  /\ stored k (snd (isAllowed_run k (t1 :: ts) (newRateLimiter 10 60000)))
     = t1 :: ts
  /\ fst (isAllowed_run k (t1 :: ts ++ [t11; t12]) (newRateLimiter 10 60000))
     = repeat true 10 ++ [false; true].
Proof.
  intros Hlen Hwin Hlate.
  set (rl0 := newRateLimiter 10 60000).
  assert (H0 : stored k rl0 = []) by (unfold stored, rl0; simpl; rewrite lookup_empty; reflexivity).
  destruct (isAllowed_run_within k (t1 :: ts) rl0) as (Hbs & Hst & Hm & Hw).
  { rewrite H0. simpl app. intros a b Ha Hb. change (windowMs rl0) with 60000.
    apply Hwin; [exact Ha|]. simpl in Hb |- *. rewrite in_app_iff. tauto. }
  { rewrite H0. simpl. rewrite Hlen. simpl. lia. }
  rewrite H0 in Hst. simpl app in Hst.
  assert (H11 : isAllowed t11 k (snd (isAllowed_run k (t1 :: ts) rl0))
                = (false, snd (isAllowed_run k (t1 :: ts) rl0))).
  { apply isAllowed_refuses. rewrite Hst, Hm, Hw. change (windowMs rl0) with 60000.
    rewrite filter_all.
    - simpl. rewrite Hlen. simpl. lia.
    - intros a Ha. apply Z.ltb_lt. apply Hwin; [exact Ha|].
      simpl. right. apply in_or_app. right. left. reflexivity. }
  assert (H12 : fst (isAllowed t12 k (snd (isAllowed_run k (t1 :: ts) rl0))) = true).
  { apply isAllowed_accepts. rewrite Hst, Hm, Hw. change (windowMs rl0) with 60000.
    simpl List.filter.
    destruct (Z.ltb_spec (t12 - t1) 60000) as [Hc|_]; [lia|].
    pose proof (filter_length_le (fun time => t12 - time <? 60000) ts).
    simpl. lia. }
  split; [rewrite Hbs; simpl; rewrite Hlen; reflexivity|].
  split; [exact H11|].
  split; [exact Hst|].
  change (t1 :: ts ++ [t11; t12]) with ((t1 :: ts) ++ [t11; t12]).
  assert (Happ : forall a b rl,
            fst (isAllowed_run k (a ++ b) rl)
            = fst (isAllowed_run k a rl)
              ++ fst (isAllowed_run k b (snd (isAllowed_run k a rl)))).
  { clear. induction a as [|t a IH]; intros b rl; [reflexivity|].
    simpl. destruct (isAllowed t k rl) as [x rl'].
    specialize (IH b rl').
    destruct (isAllowed_run k (a ++ b) rl') as [xs rl2].
    destruct (isAllowed_run k a rl') as [ys rl3]. simpl in *.
    rewrite IH. reflexivity. }
  rewrite Happ, Hbs. simpl length. rewrite Hlen. f_equal.
  remember (snd (isAllowed_run k (t1 :: ts) rl0)) as rl10 eqn:Erl.
  cbn [isAllowed_run]. rewrite H11.
  destruct (isAllowed t12 k rl10) as [b rl'] eqn:E.
  simpl in H12. subst b. reflexivity.
Qed.

Lemma rate_limiter_window_witness :
  fst (isAllowed_run (js "k") [0; 1; 2; 3; 4; 5; 6; 7; 8; 9; 59999; 60001]
         (newRateLimiter 10 60000))
  = repeat true 10 ++ [false; true].
Proof.
  apply (rate_limiter_window (js "k") 0 [1; 2; 3; 4; 5; 6; 7; 8; 9] 59999 60001).
  - reflexivity.
  - simpl. intros a b Ha Hb. lia.
  - lia.
Defined.

(** ** The handlers *)

(** C5: an identifier that does not have the generator's format is
    refused by [deleteItem] whatever the clock reads: the items and the
    rate limiter are as before, the alert says so and the audit sink gets
    INVALID_DELETE_ID. *)
Theorem delete_invalid_id now (i : jsstring) (st : App.State) :
  test App.idFormat i = false ->
  App.items (App.deleteItem now i st) = App.items st
  /\ limiter (App.env (App.deleteItem now i st)) = limiter (App.env st)
  /\ audit (App.env (App.deleteItem now i st))
     = INVALID_DELETE_ID :: audit (App.env st)
  /\ App.security (App.deleteItem now i st)
     = App.mkSecurity true "Invalid item identifier" 0
  /\ (forall now', App.deleteItem now' i st = App.deleteItem now i st).
Proof.
  intros H. unfold App.deleteItem. rewrite H. simpl.
  repeat split; reflexivity.
Qed.

Lemma delete_invalid_id_witness :
  App.items
    (App.deleteItem 0 (js "1 OR 1=1")
       (App.mkState [App.mkItem (js "1_a") (js "Buy milk") 0 0] [] None []
          (App.mkSecurity false "" 0) (mkEnv rateLimiter [])))
  = [App.mkItem (js "1_a") (js "Buy milk") 0 0].
Proof.
  apply (delete_invalid_id 0 (js "1 OR 1=1")
           (App.mkState [App.mkItem (js "1_a") (js "Buy milk") 0 0] [] None []
              (App.mkSecurity false "" 0) (mkEnv rateLimiter []))).
  vm_compute. reflexivity.
Defined.

(** C6 at the failing input: when both random draws are zero, rendered
    ["0"] in base 36, the identifier ends at the underscore and does not
    have the format that [deleteItem] demands. *)
Theorem generateSecureId_zero_draws :
  radix36_fraction (js "0") = true
  /\ generateSecureId 1700000000000 (js "0") (js "0") = js "1700000000000_"
  /\ test App.idFormat (generateSecureId 1700000000000 (js "0") (js "0"))
     = false.
Proof. repeat split; vm_compute; reflexivity. Qed.

Lemma numberToString_not_nil n : numberToString n <> [].
Proof.
  unfold numberToString.
  destruct n as [|p|p]; simpl; try discriminate;
    unfold NilZero.string_of_uint; destruct (Pos.to_uint p); simpl; discriminate.
Qed.

Lemma generateSecureId_not_nil t r1 r2 : generateSecureId t r1 r2 <> [].
Proof.
  unfold generateSecureId. intros H.
  apply app_eq_nil in H as [H _]. exact (numberToString_not_nil t H).
Qed.

Lemma crud_first_call now :
  isAllowed now (js "crud_operations") rateLimiter
  = (true, mkRateLimiter (<[js "crud_operations" := [now]]> ∅) 10 60000).
Proof.
  unfold isAllowed, rateLimiter, newRateLimiter. simpl.
  rewrite lookup_empty. reflexivity.
Qed.

Lemma crud_second_call t1 now :
  fst (isAllowed now (js "crud_operations")
         (mkRateLimiter (<[js "crud_operations" := [t1]]> ∅) 10 60000)) = true.
Proof.
  apply isAllowed_accepts. unfold stored. simpl attempts.
  rewrite lookup_insert_eq. simpl.
  destruct (now - t1 <? 60000); simpl; lia.
Qed.

(** C4: from the initial state, typing [Buy milk] and adding it gives one
    item with that text and equal creation and modification times;
    editing that item to [<img src=x onerror=alert(1)>] is rejected by the
    malicious-pattern stage and leaves the list as it was. *)
Theorem add_then_rejected_edit url (t1 t2 t3 t4 t5 : Z) (r1 r2 : jsstring) :
  exists item,
    App.items
      (App.addItem url t1 t2 t3 r1 r2
         (App.handleNewItemChange (js "Buy milk") App.initial)) = [item]
    /\ App.text item = js "Buy milk"
    /\ App.createdAt item = App.lastModified item
    /\ App.items
         (App.saveEdit url t4 t5
            (App.handleEditTextChange (js "<img src=x onerror=alert(1)>")
               (App.startEditing item
                  (App.addItem url t1 t2 t3 r1 r2
                     (App.handleNewItemChange (js "Buy milk") App.initial)))))
       = [item]
    /\ audit (App.env
         (App.saveEdit url t4 t5
            (App.handleEditTextChange (js "<img src=x onerror=alert(1)>")
               (App.startEditing item
                  (App.addItem url t1 t2 t3 r1 r2
                     (App.handleNewItemChange (js "Buy milk") App.initial))))))
       = [MALICIOUS_INPUT_DETECTED; EDIT_STARTED; ITEM_CREATED]
    /\ App.security
         (App.saveEdit url t4 t5
            (App.handleEditTextChange (js "<img src=x onerror=alert(1)>")
               (App.startEditing item
                  (App.addItem url t1 t2 t3 r1 r2
                     (App.handleNewItemChange (js "Buy milk") App.initial)))))
       = App.mkSecurity true
           "Invalid input detected. Please check your content." 0.
Proof.
  exists (App.mkItem (generateSecureId t3 r1 r2) (js "Buy milk") t2 t2).
  assert (Hadd :
    App.addItem url t1 t2 t3 r1 r2
      (App.handleNewItemChange (js "Buy milk") App.initial)
    = App.mkState [App.mkItem (generateSecureId t3 r1 r2) (js "Buy milk") t2 t2]
        [] None [] (App.mkSecurity false "" 0)
        (mkEnv (mkRateLimiter (<[js "crud_operations" := [t1]]> ∅) 10 60000)
           [ITEM_CREATED])).
  { unfold App.addItem, App.validateAndSanitizeInput.
    change (App.newItem (App.handleNewItemChange (js "Buy milk") App.initial))
      with (js "Buy milk").
    change (limiter (App.env (App.handleNewItemChange (js "Buy milk") App.initial)))
      with rateLimiter.
    rewrite crud_first_call.
    replace (validateLength (js "Buy milk") 500) with true by (vm_compute; reflexivity).
    replace (validateInput (js "Buy milk")) with true by (vm_compute; reflexivity).
    replace (isValidContent (js "Buy milk")) with true by (vm_compute; reflexivity).
    replace (validateForContext url (js "Buy milk") CtxText) with true
      by (vm_compute; reflexivity).
    replace (sanitizeHtml (trim (js "Buy milk"))) with (js "Buy milk")
      by (vm_compute; reflexivity).
    reflexivity. }
  rewrite Hadd.
  split; [reflexivity|]. split; [reflexivity|]. split; [reflexivity|].
  assert (Hedit :
    App.handleEditTextChange (js "<img src=x onerror=alert(1)>")
      (App.startEditing
         (App.mkItem (generateSecureId t3 r1 r2) (js "Buy milk") t2 t2)
         (App.mkState
            [App.mkItem (generateSecureId t3 r1 r2) (js "Buy milk") t2 t2]
            [] None [] (App.mkSecurity false "" 0)
            (mkEnv (mkRateLimiter (<[js "crud_operations" := [t1]]> ∅) 10 60000)
               [ITEM_CREATED])))
    = App.mkState
        [App.mkItem (generateSecureId t3 r1 r2) (js "Buy milk") t2 t2]
        [] (Some (generateSecureId t3 r1 r2))
        (js "<img src=x onerror=alert(1)>") (App.mkSecurity false "" 0)
        (mkEnv (mkRateLimiter (<[js "crud_operations" := [t1]]> ∅) 10 60000)
           [EDIT_STARTED; ITEM_CREATED])).
  { unfold App.handleEditTextChange.
    replace (500 <? length (js "<img src=x onerror=alert(1)>"))%nat with false
      by (vm_compute; reflexivity).
    reflexivity. }
  rewrite Hedit.
  assert (Hpipe :
    App.validateAndSanitizeInput url t4 (js "<img src=x onerror=alert(1)>")
      (mkEnv (mkRateLimiter (<[js "crud_operations" := [t1]]> ∅) 10 60000)
         [EDIT_STARTED; ITEM_CREATED])
    = (App.invalid "Invalid input detected. Please check your content.",
       mkEnv
         (snd (isAllowed t4 (js "crud_operations")
                 (mkRateLimiter (<[js "crud_operations" := [t1]]> ∅) 10 60000)))
         [MALICIOUS_INPUT_DETECTED; EDIT_STARTED; ITEM_CREATED])).
  { unfold App.validateAndSanitizeInput. cbn [limiter audit].
    pose proof (crud_second_call t1 t4) as Hsecond.
    destruct (isAllowed t4 (js "crud_operations")
                (mkRateLimiter (<[js "crud_operations" := [t1]]> ∅) 10 60000))
      as [b rl'] eqn:E.
    cbn [fst snd] in *. subst b.
    replace (validateLength (js "<img src=x onerror=alert(1)>") 500) with true
      by (vm_compute; reflexivity).
    replace (validateInput (js "<img src=x onerror=alert(1)>")) with false
      by (vm_compute; reflexivity).
    reflexivity. }
  unfold App.saveEdit.
  cbn [App.env App.editingText App.editingId App.items App.newItem
       App.security].
  rewrite Hpipe.
  destruct (generateSecureId t3 r1 r2) as [|c rest] eqn:Eid;
    [exfalso; exact (generateSecureId_not_nil _ _ _ Eid)|].
  cbn [App.isValid App.invalid negb App.items App.env App.security audit
       App.error_or_default App.error].
  repeat split; reflexivity.
Qed.

(** * Further properties *)

(** ** The rate limiter, in general *)

Lemma isAllowed_cases now key rl :
  (fst (isAllowed now key rl) = true
   /\ Z.of_nat (length (in_window (windowMs rl) now (stored key rl)))
      < maxAttempts rl
   /\ stored key (snd (isAllowed now key rl))
      = in_window (windowMs rl) now (stored key rl) ++ [now]
   /\ maxAttempts (snd (isAllowed now key rl)) = maxAttempts rl
   /\ windowMs (snd (isAllowed now key rl)) = windowMs rl)
  \/ (isAllowed now key rl = (false, rl)
      /\ maxAttempts rl
         <= Z.of_nat (length (in_window (windowMs rl) now (stored key rl)))).
Proof.
  unfold in_window.
  destruct (Z.lt_ge_cases
              (Z.of_nat (length (List.filter (fun time => now - time <? windowMs rl)
                                   (stored key rl))))
              (maxAttempts rl)) as [Hlt|Hge].
  - left. destruct (isAllowed_accepts now key rl Hlt) as (H1 & H2 & H3 & H4).
    repeat split; assumption.
  - right. split; [apply isAllowed_refuses; exact Hge | exact Hge].
Qed.

Lemma isAllowed_run_snoc key ts t rl :
  isAllowed_run key (ts ++ [t]) rl
  = (fst (isAllowed_run key ts rl)
     ++ [fst (isAllowed t key (snd (isAllowed_run key ts rl)))],
     snd (isAllowed t key (snd (isAllowed_run key ts rl)))).
Proof.
  revert rl. induction ts as [|a ts IH]; intros rl.
  - simpl. destruct (isAllowed t key rl). reflexivity.
  - simpl. destruct (isAllowed a key rl) as [b rl'].
    rewrite IH. destruct (isAllowed_run key ts rl'). reflexivity.
Qed.

Lemma allowed_times_snoc key ts t rl :
  allowed_times key (ts ++ [t]) rl
  = allowed_times key ts rl
    ++ (if fst (isAllowed t key (snd (isAllowed_run key ts rl)))
        then [t] else []).
Proof.
  revert rl. induction ts as [|a ts IH]; intros rl.
  - simpl. destruct (isAllowed t key rl). simpl. rewrite app_nil_r. reflexivity.
  - simpl. destruct (isAllowed a key rl) as [b rl'].
    rewrite IH. destruct (isAllowed_run key ts rl'). simpl.
    rewrite app_assoc. reflexivity.
Qed.

Lemma in_window_app w now l1 l2 :
  in_window w now (l1 ++ l2) = in_window w now l1 ++ in_window w now l2.
Proof. unfold in_window. apply List.filter_app. Qed.

Lemma in_window_later w t t' l :
  t <= t' -> in_window w t' (in_window w t l) = in_window w t' l.
Proof.
  intros Hle. unfold in_window. induction l as [|a l IH]; [reflexivity|].
  simpl. destruct (Z.ltb_spec (t - a) w) as [H1|H1]; simpl.
  - rewrite IH. reflexivity.
  - destruct (Z.ltb_spec (t' - a) w) as [H2|H2]; [lia | exact IH].
Qed.

(** The state of a fresh limiter after any run of calls with a clock that
    does not go back: at most [maxAttempts] timestamps are stored, and in
    the window of any later call the stored timestamps are the allowed
    calls. *)
Lemma limiter_history key m w ts :
  0 <= m -> 0 < w -> StronglySorted Z.le ts ->
  maxAttempts (snd (isAllowed_run key ts (newRateLimiter m w))) = m
  /\ windowMs (snd (isAllowed_run key ts (newRateLimiter m w))) = w
  /\ Z.of_nat (length (stored key (snd (isAllowed_run key ts (newRateLimiter m w)))))
     <= m
  /\ (forall t, (forall a, In a ts -> a <= t) ->
        in_window w t (stored key (snd (isAllowed_run key ts (newRateLimiter m w))))
        = in_window w t (allowed_times key ts (newRateLimiter m w))).
Proof.
  intros Hm Hw. induction ts as [|t ts IH] using rev_ind; intros Hs.
  - simpl. unfold stored. simpl. rewrite lookup_empty. simpl.
    repeat split; try reflexivity. lia.
  - assert (Hs' : StronglySorted Z.le ts /\ forall a, In a ts -> a <= t).
    { clear -Hs. induction ts as [|x ts IH]; simpl in *.
      - split; [constructor | intros a []].
      - inversion Hs as [|? ? Hss Hall]; subst.
        destruct (IH Hss) as [IH1 IH2]. split.
        + constructor; [exact IH1|].
          rewrite Forall_app in Hall. tauto.
        + intros a [<-|Ha]; [|apply IH2; exact Ha].
          rewrite Forall_app in Hall. destruct Hall as [_ Hall].
          inversion Hall; subst. assumption. }
    destruct Hs' as [Hsorted Hbound].
    destruct (IH Hsorted) as (Hmax & Hwin & Hlen & Hhist).
    rewrite isAllowed_run_snoc, allowed_times_snoc. cbn [snd].
    set (rl := snd (isAllowed_run key ts (newRateLimiter m w))) in *.
    destruct (isAllowed_cases t key rl)
      as [(Hb & Hlt & Hst & Hm' & Hw')|[Hrefuse Hge]].
    + rewrite Hb, Hst, Hm', Hw', Hmax, Hwin. rewrite Hwin, Hmax in Hlt.
      repeat split; try reflexivity.
      * rewrite length_app. simpl. lia.
      * intros t' Ht'.
        assert (t <= t') by (apply Ht'; apply in_or_app; right; left; reflexivity).
        rewrite !in_window_app, in_window_later by assumption.
        rewrite Hhist; [reflexivity|].
        intros a Ha. apply Ht'. apply in_or_app. left. exact Ha.
    + rewrite Hrefuse. cbn [fst snd]. rewrite app_nil_r.
      repeat split; try assumption.
      intros t' Ht'. apply Hhist.
      intros a Ha. apply Ht'. apply in_or_app. left. exact Ha.
Qed.

(** X1: whatever calls were made on a fresh limiter, for one key and with
    a clock that does not go back, the calls allowed within the window
    that ends at any call are at most [maxAttempts]. *)
Theorem rate_limit_holds key m w (pre post : list Z) (t : Z) :
  0 <= m -> 0 < w -> StronglySorted Z.le (pre ++ t :: post) ->
  Z.of_nat (length (in_window w t
                      (allowed_times key (pre ++ [t]) (newRateLimiter m w))))
  <= m.
Proof.
  intros Hm Hw Hs.
  assert (Hs' : StronglySorted Z.le (pre ++ [t])).
  { clear -Hs. induction pre as [|x pre IH]; simpl in *.
    - repeat constructor.
    - inversion Hs as [|? ? Hss Hall]; subst. constructor; [apply IH; exact Hss|].
      rewrite Forall_app in Hall |- *. destruct Hall as [H1 H2].
      split; [exact H1|]. inversion H2; subst. repeat constructor. assumption. }
  destruct (limiter_history key m w (pre ++ [t]) Hm Hw Hs')
    as (_ & _ & Hlen & Hhist).
  rewrite <- Hhist.
  - pose proof (filter_length_le (fun time => t - time <? w)
                  (stored key (snd (isAllowed_run key (pre ++ [t])
                                      (newRateLimiter m w))))) as Hle.
    unfold in_window. lia.
  - clear -Hs'. intros a Ha. apply in_app_or in Ha as [Ha|[<-|[]]]; [|lia].
    induction pre as [|x pre IH]; [destruct Ha|].
    simpl in Hs'. inversion Hs' as [|? ? Hss Hall]; subst.
    destruct Ha as [<-|Ha]; [|apply IH; assumption].
    rewrite Forall_app in Hall. destruct Hall as [_ Hall].
    inversion Hall; subst. assumption.
Qed.

Lemma rate_limit_holds_witness :
  Z.of_nat (length (in_window 60000 5
                      (allowed_times (js "k") ([1; 2; 3] ++ [5])
                         (newRateLimiter 2 60000))))
  <= 2.
Proof.
  apply (rate_limit_holds (js "k") 2 60000 [1; 2; 3] [70000] 5).
  - lia.
  - lia.
  - repeat constructor; lia.
Defined.

(** X2: the limiter never holds more than [maxAttempts] timestamps for
    a key, whatever the calls and whatever the clock reads. *)
Theorem stored_bounded key m w (ts : list Z) :
  0 <= m ->
  Z.of_nat (length (stored key (snd (isAllowed_run key ts (newRateLimiter m w)))))
  <= m.
Proof.
  intros Hm.
  assert (G : forall ts rl,
            Z.of_nat (length (stored key rl)) <= maxAttempts rl ->
            Z.of_nat (length (stored key (snd (isAllowed_run key ts rl))))
            <= maxAttempts rl
            /\ maxAttempts (snd (isAllowed_run key ts rl)) = maxAttempts rl).
  { clear. induction ts as [|t ts IH]; intros rl H; [split; [exact H | reflexivity]|].
    simpl.
    destruct (isAllowed_cases t key rl)
      as [(Hb & Hlt & Hst & Hm' & Hw')|[Hrefuse Hge]].
    - destruct (isAllowed t key rl) as [b rl'] eqn:E. simpl in *.
      destruct (IH rl') as [IH1 IH2].
      { rewrite Hst, Hm', length_app. simpl. lia. }
      destruct (isAllowed_run key ts rl') as [bs rl'']. simpl in *.
      split; congruence.
    - rewrite Hrefuse. specialize (IH rl H).
      destruct (isAllowed_run key ts rl) as [bs rl'']. exact IH. }
  apply (G ts (newRateLimiter m w)).
  unfold stored. simpl. rewrite lookup_empty. simpl. exact Hm.
Qed.

Lemma stored_bounded_witness :
  Z.of_nat (length (stored (js "k")
                      (snd (isAllowed_run (js "k") [5; 1; 70000; 3]
                              (newRateLimiter 2 60000)))))
  <= 2.
Proof. apply (stored_bounded (js "k") 2 60000 [5; 1; 70000; 3]). lia. Defined.

(** A call for one key leaves every other key, and the settings, alone. *)
Lemma isAllowed_frame now (key key' : jsstring) rl :
  key <> key' ->
  stored key' (snd (isAllowed now key rl)) = stored key' rl
  /\ maxAttempts (snd (isAllowed now key rl)) = maxAttempts rl
  /\ windowMs (snd (isAllowed now key rl)) = windowMs rl.
Proof.
  intros Hne. unfold isAllowed, stored.
  destruct (_ >=? _); simpl; [repeat split; reflexivity|].
  rewrite lookup_insert_ne by exact Hne. repeat split; reflexivity.
Qed.

(** X3: the keys do not interfere: a call for one key leaves the
    timestamps of every other key, and so the answer to its next call, as
    they were. *)
Theorem isAllowed_other_key now now' (key key' : jsstring) rl :
  key <> key' ->
  stored key' (snd (isAllowed now key rl)) = stored key' rl
  /\ fst (isAllowed now' key' (snd (isAllowed now key rl)))
     = fst (isAllowed now' key' rl).
Proof.
  intros Hne.
  destruct (isAllowed_frame now key key' rl Hne) as (Hst & Hm & Hw).
  split; [exact Hst|].
  unfold isAllowed at 1 3. fold (stored key' (snd (isAllowed now key rl))).
  fold (stored key' rl). rewrite Hst, Hm, Hw.
  destruct (_ >=? _); reflexivity.
Qed.

Lemma isAllowed_other_key_witness :
  stored (js "delete_operations")
    (snd (isAllowed 0 (js "crud_operations") rateLimiter))
  = stored (js "delete_operations") rateLimiter.
Proof.
  apply (isAllowed_other_key 0 0 (js "crud_operations")
           (js "delete_operations") rateLimiter).
  discriminate.
Defined.

(** X4: [reset(key)] forgets the timestamps of [key] and of no other key,
    so the next call for [key] is allowed as on a fresh limiter and starts
    a new list. *)
Theorem reset_clears now (key key' : jsstring) rl :
  0 < maxAttempts rl ->
  stored key (reset key rl) = []
  /\ (key' <> key -> stored key' (reset key rl) = stored key' rl)
  /\ fst (isAllowed now key (reset key rl)) = true
  /\ stored key (snd (isAllowed now key (reset key rl))) = [now].
Proof.
  intros Hmax.
  assert (H0 : stored key (reset key rl) = []).
  { unfold stored, reset. simpl. rewrite lookup_delete_eq. reflexivity. }
  split; [exact H0|]. split.
  { intros Hne. unfold stored, reset. simpl.
    rewrite lookup_delete_ne by congruence. reflexivity. }
  destruct (isAllowed_accepts now key (reset key rl)) as (Hb & Hst & _).
  { rewrite H0. simpl. exact Hmax. }
  rewrite H0 in Hst. split; assumption.
Qed.

Lemma reset_clears_witness :
  fst (isAllowed 11 (js "k")
         (reset (js "k")
            (snd (isAllowed_run (js "k") [1; 2; 3; 4; 5; 6; 7; 8; 9; 10]
                    rateLimiter)))) = true.
Proof.
  apply (reset_clears 11 (js "k") (js "k")
           (snd (isAllowed_run (js "k") [1; 2; 3; 4; 5; 6; 7; 8; 9; 10]
                   rateLimiter))).
  vm_compute. reflexivity.
Defined.

(** ** The sanitizer, in general *)

Lemma escape_cases c :
  (c = ch "&" /\ escape c = js "&amp;")
  \/ (c = ch "<" /\ escape c = js "&lt;")
  \/ (c = ch ">" /\ escape c = js "&gt;")
  \/ (c = 34 /\ escape c = js "&quot;")
  \/ (c = ch "'" /\ escape c = js "&#x27;")
  \/ (c = ch "/" /\ escape c = js "&#x2F;")
  \/ (c <> ch "&" /\ ~ In c markup /\ escape c = [c]).
Proof.
  unfold escape, markup.
  destruct (Z.eqb_spec c (ch "&")) as [->|H1]; [tauto|].
  destruct (Z.eqb_spec c (ch "<")) as [->|H2]; [tauto|].
  destruct (Z.eqb_spec c (ch ">")) as [->|H3]; [tauto|].
  destruct (Z.eqb_spec c 34) as [->|H4]; [tauto|].
  destruct (Z.eqb_spec c (ch "'")) as [->|H5]; [tauto|].
  destruct (Z.eqb_spec c (ch "/")) as [->|H6]; [tauto|].
  repeat right. split; [exact H1|]. split; [|reflexivity].
  simpl. intuition congruence.
Qed.

Lemma escape_no_markup c x : In x (escape c) -> ~ In x markup.
Proof.
  destruct (escape_cases c)
    as [[_ ->]|[[_ ->]|[[_ ->]|[[_ ->]|[[_ ->]|[[_ ->]|(_ & H & ->)]]]]]];
    intros Hx.
  1-6: vm_compute in Hx |- *; intuition (subst; discriminate).
  destruct Hx as [<-|[]]. exact H.
Qed.

Lemma escape_length c : (1 <= length (escape c) <= 6)%nat.
Proof.
  destruct (escape_cases c)
    as [[_ ->]|[[_ ->]|[[_ ->]|[[_ ->]|[[_ ->]|[[_ ->]|(_ & _ & ->)]]]]]];
    simpl; lia.
Qed.

Lemma sanitizeHtml_length s :
  (length s <= length (sanitizeHtml s) <= 6 * length s)%nat.
Proof.
  rewrite sanitizeHtml_escape. induction s as [|c s IH]; simpl; [lia|].
  rewrite length_app. pose proof (escape_length c). lia.
Qed.

Lemma sanitizeHtml_no_markup s x : In x (sanitizeHtml s) -> ~ In x markup.
Proof.
  rewrite sanitizeHtml_escape. intros H.
  apply in_flat_map in H as (c & _ & H). exact (escape_no_markup c x H).
Qed.

(** X5: a sanitized text has none of the characters [<], [>], the double
    quote, ['] and [/], is at least as long as the input and at most six
    times as long, and is the input itself when the input has none of the
    six characters. *)
Theorem sanitized_is_inert input :
  (forall c, In c (sanitizeHtml input) -> ~ In c markup)
  /\ (length input <= length (sanitizeHtml input) <= 6 * length input)%nat
  /\ ((forall c, In c input -> c <> ch "&" /\ ~ In c markup) ->
      sanitizeHtml input = input).
Proof.
  split; [intros c; apply sanitizeHtml_no_markup|].
  split; [apply sanitizeHtml_length|].
  intros Hplain. rewrite sanitizeHtml_escape.
  induction input as [|c s IH]; [reflexivity|].
  simpl. rewrite IH by (intros x Hx; apply Hplain; right; exact Hx).
  destruct (Hplain c (or_introl eq_refl)) as [Hamp Hmark].
  destruct (escape_cases c)
    as [[-> _]|[[-> _]|[[-> _]|[[-> _]|[[-> _]|[[-> _]|(_ & _ & ->)]]]]]];
    try reflexivity; try congruence;
    exfalso; apply Hmark; unfold markup; simpl; tauto.
Qed.

Lemma sanitized_is_inert_witness : sanitizeHtml (js "Buy milk") = js "Buy milk".
Proof.
  apply (sanitized_is_inert (js "Buy milk")).
  intros c Hc. vm_compute in Hc.
  repeat (destruct Hc as [<-|Hc];
          [split; [discriminate | vm_compute; intuition discriminate]|]).
  destruct Hc.
Defined.

(** Two characters with entities that start alike are the same. *)
Lemma escape_prefix c d s t : escape c ++ s = escape d ++ t -> c = d /\ s = t.
Proof.
  destruct (escape_cases c)
    as [[-> Ec]|[[-> Ec]|[[-> Ec]|[[-> Ec]|[[-> Ec]|[[-> Ec]|(Hc & _ & Ec)]]]]]];
  destruct (escape_cases d)
    as [[-> Ed]|[[-> Ed]|[[-> Ed]|[[-> Ed]|[[-> Ed]|[[-> Ed]|(Hd & _ & Ed)]]]]]];
  rewrite ?Ec, ?Ed; intros H;
  try (split; [reflexivity|]; injection H; intros; assumption);
  try (vm_compute in H; discriminate);
  try (exfalso; simpl in H; injection H; intros; unfold ch in *; simpl in *;
       congruence).
  injection H. intros. split; assumption.
Qed.

(** X6: the sanitizer loses nothing: two inputs with the same sanitized
    text are the same input. *)
Theorem sanitizeHtml_injective (s t : jsstring) :
  sanitizeHtml s = sanitizeHtml t -> s = t.
Proof.
  rewrite !sanitizeHtml_escape. revert t.
  induction s as [|c s IH]; intros [|d t] H; simpl in H.
  - reflexivity.
  - pose proof (escape_length d). destruct (escape d); simpl in *; [lia | discriminate].
  - pose proof (escape_length c). destruct (escape c); simpl in *; [lia | discriminate].
  - apply escape_prefix in H as [-> H]. f_equal. apply IH. exact H.
Qed.

Lemma sanitizeHtml_injective_witness : js "a<b" = js "a<b".
Proof. apply (sanitizeHtml_injective (js "a<b") (js "a<b")). reflexivity. Defined.

(** ** Identifiers, in general *)

Lemma Matches_star_cls ic neg rs : forall u pre rest,
  forallb (cls_match ic neg rs) u = true ->
  Matches ic (Star (Cls neg rs)) (pre, u ++ rest) (rev u ++ pre, rest).
Proof.
  induction u as [|x u IH]; intros pre rest H.
  - apply M_Star0.
  - simpl in H. apply andb_true_iff in H as [Hx Hu]. simpl.
    eapply M_StarS; [apply M_Cls; exact Hx | |].
    + simpl. rewrite length_app. lia.
    + rewrite <- app_assoc. simpl. apply IH. exact Hu.
Qed.

Lemma Matches_plus_cls ic neg rs u pre rest :
  u <> [] -> forallb (cls_match ic neg rs) u = true ->
  Matches ic (Plus (Cls neg rs)) (pre, u ++ rest) (rev u ++ pre, rest).
Proof.
  destruct u as [|x u]; [congruence|]. intros _ H.
  simpl in H. apply andb_true_iff in H as [Hx Hu].
  unfold Plus. simpl. eapply M_Seq; [apply M_Cls; exact Hx|].
  rewrite <- app_assoc. simpl. apply Matches_star_cls. exact Hu.
Qed.

Lemma uint_digits (d : Decimal.uint) :
  forallb (cls_match false false digit_ranges) (js (NilEmpty.string_of_uint d))
  = true.
Proof. induction d; simpl; try reflexivity; exact IHd. Qed.

(** The decimal digits of a number that is not negative. *)
Lemma numberToString_digits n :
  0 <= n ->
  forallb (cls_match false false digit_ranges) (numberToString n) = true.
Proof.
  intros Hn. unfold numberToString.
  destruct n as [|p|p]; [reflexivity | | lia].
  simpl. unfold NilZero.string_of_uint.
  destruct (Pos.to_uint p) eqn:E; try reflexivity;
    rewrite <- E; apply uint_digits.
Qed.

Lemma forallb_firstn {A} (f : A -> bool) n l :
  forallb f l = true -> forallb f (firstn n l) = true.
Proof.
  revert l. induction n as [|n IH]; intros [|x l] H; simpl in *; try reflexivity.
  apply andb_true_iff in H as [Hx Hl]. rewrite Hx. simpl. apply IH. exact Hl.
Qed.

(** What [substring(2, 15)] keeps of the rendering of a fraction. *)
Lemma random_segment r :
  radix36_fraction r = true ->
  forallb is_base36 (substring 2 15 r) = true
  /\ (r <> js "0" -> substring 2 15 r <> []).
Proof.
  unfold radix36_fraction, substring.
  destruct r as [|z [|d [|x ds]]]; try discriminate.
  - intros H. apply Z.eqb_eq in H. subst z. split; [reflexivity|].
    intros Hne. exfalso. apply Hne. reflexivity.
  - intros H. apply andb_true_iff in H as [_ H].
    split; [|discriminate].
    change (skipn 2 (z :: d :: x :: ds)) with (x :: ds).
    apply forallb_firstn. exact H.
Qed.

Lemma base36_class c :
  is_base36 c = true ->
  cls_match false false [(ch "a", ch "z"); (ch "0", ch "9")] c = true.
Proof.
  unfold is_base36, cls_match, in_ranges. simpl.
  intros H. apply orb_true_iff in H as [H|H]; rewrite H; simpl;
    rewrite ?orb_true_r; reflexivity.
Qed.

(** X7: for a timestamp that is not negative and two renderings of
    fractions of which one at least is not zero, the identifier has the
    format that [deleteItem] demands. *)
Theorem generateSecureId_format timestamp (rnd1 rnd2 : jsstring) :
  0 <= timestamp ->
  radix36_fraction rnd1 = true -> radix36_fraction rnd2 = true ->
  rnd1 <> js "0" \/ rnd2 <> js "0" ->
  test App.idFormat (generateSecureId timestamp rnd1 rnd2) = true.
Proof.
  intros Ht H1 H2 Hnz.
  destruct (random_segment rnd1 H1) as [Hb1 Hn1].
  destruct (random_segment rnd2 H2) as [Hb2 Hn2].
  unfold generateSecureId.
  set (digits := numberToString timestamp).
  set (tail := substring 2 15 rnd1 ++ substring 2 15 rnd2).
  assert (Htail : tail <> []).
  { unfold tail. intros H. apply app_eq_nil in H as [E1 E2].
    destruct Hnz as [Hnz|Hnz]; [apply (Hn1 Hnz E1) | apply (Hn2 Hnz E2)]. }
  assert (Hclass : forallb (cls_match false false
                              [(ch "a", ch "z"); (ch "0", ch "9")]) tail = true).
  { unfold tail. rewrite forallb_app. apply andb_true_iff. split.
    - apply forallb_forall. intros c Hc. apply base36_class.
      rewrite forallb_forall in Hb1. apply Hb1. exact Hc.
    - apply forallb_forall. intros c Hc. apply base36_class.
      rewrite forallb_forall in Hb2. apply Hb2. exact Hc. }
  change (digits ++ js "_" ++ tail) with (digits ++ ch "_" :: tail).
  apply (test_complete App.idFormat [] (digits ++ ch "_" :: tail)
           (rev tail ++ ch "_" :: rev digits ++ [], [])).
  change (Matches false
            (Bol >> Plus digit >> Chr (ch "_")
             >> Plus (Cls false [(ch "a", ch "z"); (ch "0", ch "9")]) >> Eol)
            ([], digits ++ ch "_" :: tail)
            (rev tail ++ ch "_" :: rev digits ++ [], [])).
  eapply M_Seq; [apply M_Bol|].
  eapply M_Seq.
  { apply Matches_plus_cls;
      [apply numberToString_not_nil | apply numberToString_digits; exact Ht]. }
  eapply M_Seq; [apply M_Chr; reflexivity|].
  eapply M_Seq; [|apply M_Eol].
  rewrite <- (app_nil_r tail) at 1.
  apply Matches_plus_cls; assumption.
Qed.

Lemma generateSecureId_format_witness :
  test App.idFormat
    (generateSecureId 1700000000000 (js "0.4fzyo82mvyr") (js "0")) = true.
Proof.
  apply (generateSecureId_format 1700000000000 (js "0.4fzyo82mvyr") (js "0")).
  - lia.
  - vm_compute. reflexivity.
  - vm_compute. reflexivity.
  - left. discriminate.
Defined.

(** ** What the validators exclude *)

Lemma validateInput_inv input :
  validateInput input = true ->
  trim input <> [] /\ (length input <= 1000)%nat
  /\ (forall re, In re maliciousPatterns -> test re input = false).
Proof.
  unfold validateInput. intros H.
  destruct (negb (truthy input) || negb (truthy (trim input))) eqn:E1;
    [discriminate|].
  destruct (1000 <? length input)%nat eqn:E2; [discriminate|].
  apply orb_false_iff in E1 as [_ E1]. apply negb_false_iff in E1.
  split; [intros Hnil; rewrite Hnil in E1; discriminate|].
  split; [apply Nat.ltb_ge; exact E2|].
  intros re Hin. apply negb_true_iff in H.
  destruct (test re input) eqn:E; [|reflexivity].
  assert (existsb (fun pattern => test pattern input) maliciousPatterns = true)
    by (apply existsb_exists; eauto).
  congruence.
Qed.

Lemma word_class c : is_word c = true -> cls_match true false word_ranges c = true.
Proof. unfold cls_match, is_word. intros ->. reflexivity. Qed.

Lemma space_class c : is_space c = true -> cls_match true false space_ranges c = true.
Proof. unfold cls_match, is_space. intros ->. reflexivity. Qed.

Lemma forallb_impl {A} (f g : A -> bool) l :
  (forall x, f x = true -> g x = true) ->
  forallb f l = true -> forallb g l = true.
Proof.
  intros Hfg H. apply forallb_forall. intros x Hx. apply Hfg.
  rewrite forallb_forall in H. apply H. exact Hx.
Qed.

(** A name, optional white space and a closing character, as in the
    patterns for CSS functions. *)
Lemma test_name_space_char (name : string) (close : Z) pre fn sp post :
  lit_eq true (js name) fn = true -> forallb is_space sp = true ->
  test (gi (str name >> Star space >> Chr close))
    (pre ++ fn ++ sp ++ [close] ++ post) = true.
Proof.
  intros Hfn Hsp.
  apply (test_complete (gi (str name >> Star space >> Chr close)) pre
           (fn ++ sp ++ [close] ++ post)
           (close :: rev sp ++ rev fn ++ rev pre, post)).
  change (Matches true (str name >> Star space >> Chr close)
            (rev pre, fn ++ sp ++ [close] ++ post)
            (close :: rev sp ++ rev fn ++ rev pre, post)).
  eapply M_Seq; [apply (Matches_lit true (js name)); exact Hfn|].
  eapply M_Seq.
  { apply Matches_star_cls. eapply forallb_impl; [apply space_class | exact Hsp]. }
  apply M_Chr. unfold chr_eq. apply Z.eqb_refl.
Qed.

(** X8: an input that [validateInput] accepts is not blank, has at most
    1000 code units, and contains, in any casing, none of the ten literal
    patterns, no event-handler attribute (on, word characters, optional
    white space, =) and no CSS function call (expression or url, optional
    white space, an opening parenthesis). *)
Theorem validateInput_excludes input :
  validateInput input = true ->
  trim input <> [] /\ (length input <= 1000)%nat
  /\ (forall w,
        In w ["javascript:"; "data:text/html"; "vbscript:"; "<iframe";
              "<object"; "<embed"; "<link"; "<meta"; "<style";
              "@import"]%string ->
        ~ contains_ci (js w) input)
  /\ (forall pre on name sp post,
        input = pre ++ on ++ name ++ sp ++ [ch "="] ++ post ->
        lit_eq true (js "on") on = true -> name <> [] ->
        forallb is_word name = true -> forallb is_space sp = true -> False)
  /\ (forall fn pre f sp post,
        In fn ["expression"; "url"]%string ->
        input = pre ++ f ++ sp ++ [ch "("] ++ post ->
        lit_eq true (js fn) f = true -> forallb is_space sp = true -> False).
Proof.
  intros H. apply validateInput_inv in H as (Hblank & Hlen & Hpat).
  split; [exact Hblank|]. split; [exact Hlen|]. split; [|split].
  - intros w Hw Hocc.
    assert (Hin : In (gi (str w)) maliciousPatterns).
    { unfold maliciousPatterns. simpl in Hw |- *.
      repeat (destruct Hw as [<-|Hw]; [tauto|]). destruct Hw. }
    pose proof (Hpat _ Hin) as Hno. unfold str in Hno.
    rewrite (test_lit_ci (js w) input Hocc) in Hno. discriminate.
  - intros pre on name sp post -> Hon Hne Hname Hsp.
    assert (Hin : In (gi (str "on" >> Plus word >> Star space >> Chr (ch "=")))
                    maliciousPatterns)
      by (unfold maliciousPatterns; simpl; tauto).
    specialize (Hpat _ Hin).
    rewrite (test_complete _ pre (on ++ name ++ sp ++ [ch "="] ++ post)
               (ch "=" :: rev sp ++ rev name ++ rev on ++ rev pre, post))
      in Hpat; [discriminate|].
    change (Matches true (str "on" >> Plus word >> Star space >> Chr (ch "="))
              (rev pre, on ++ name ++ sp ++ [ch "="] ++ post)
              (ch "=" :: rev sp ++ rev name ++ rev on ++ rev pre, post)).
    eapply M_Seq; [apply (Matches_lit true (js "on")); exact Hon|].
    eapply M_Seq.
    { apply Matches_plus_cls; [exact Hne|].
      eapply forallb_impl; [apply word_class | exact Hname]. }
    eapply M_Seq.
    { apply Matches_star_cls.
      eapply forallb_impl; [apply space_class | exact Hsp]. }
    apply M_Chr. reflexivity.
  - intros fn pre f sp post Hfn -> Hf Hsp.
    assert (Hin : In (gi (str fn >> Star space >> Chr (ch "("))) maliciousPatterns).
    { unfold maliciousPatterns. simpl in Hfn |- *.
      repeat (destruct Hfn as [<-|Hfn]; [tauto|]). destruct Hfn. }
    pose proof (Hpat _ Hin) as Hno.
    rewrite (test_name_space_char fn (ch "(") pre f sp post Hf Hsp) in Hno.
    discriminate.
Qed.

Lemma validateInput_excludes_witness :
  ~ contains_ci (js "javascript:") (js "Buy milk").
Proof.
  apply (validateInput_excludes (js "Buy milk")).
  - vm_compute. reflexivity.
  - simpl. tauto.
Defined.

(** X9: the trimmed form of a content that [isValidContent] accepts
    contains, in any casing, none of the twelve XSS words. *)
Theorem isValidContent_excludes content :
  isValidContent content = true ->
  forall w,
    In w ["javascript:"; "vbscript:"; "onload"; "onerror"; "onclick";
          "onmouseover"; "<script"; "</script>"; "eval("; "alert(";
          "confirm("; "prompt("]%string ->
    ~ contains_ci (js w) (trim content).
Proof.
  intros H w Hw Hocc. apply isValidContent_inv in H as [_ Hxss].
  assert (Hin : In (gi (str w)) xssPatterns).
  { unfold xssPatterns. simpl in Hw |- *.
    repeat (destruct Hw as [<-|Hw]; [tauto|]). destruct Hw. }
  pose proof (Hxss _ Hin) as Hno. unfold str in Hno.
  rewrite (test_lit_ci (js w) (trim content) Hocc) in Hno. discriminate.
Qed.

Lemma isValidContent_excludes_witness :
  ~ contains_ci (js "alert(") (trim (js " Buy milk ")).
Proof.
  apply (isValidContent_excludes (js " Buy milk ")).
  - vm_compute. reflexivity.
  - simpl. tauto.
Defined.

(** X10: in the [attribute] context an accepted input passed
    [validateInput] and has none of the characters [<], [>], the double
    quote, ['] and [&]. *)
Theorem attribute_context_excludes url_protocol input :
  validateForContext url_protocol input CtxAttribute = true ->
  validateInput input = true
  /\ forall c, In c [ch "<"; ch ">"; 34; ch "'"; ch "&"] -> ~ In c input.
Proof.
  simpl. intros H. apply andb_true_iff in H as [Hv Hcls].
  split; [exact Hv|]. intros c Hc Hin. apply negb_true_iff in Hcls.
  apply in_split in Hin as (pre & post & ->).
  rewrite (test_complete _ pre (c :: post) (c :: rev pre, post)) in Hcls;
    [discriminate|].
  apply M_Cls. unfold cls_match, in_ranges. simpl in Hc |- *.
  repeat (destruct Hc as [<-|Hc]; [vm_compute; reflexivity|]). destruct Hc.
Qed.

Lemma attribute_context_excludes_witness : ~ In (ch "<") (js "title").
Proof.
  apply (attribute_context_excludes (fun _ => None) (js "title")).
  - vm_compute. reflexivity.
  - simpl. tauto.
Defined.

(** ** The pipeline and the limiter *)

(** Every call of the pipeline asks the limiter once, for
    [crud_operations], whatever becomes of the input. *)
Lemma pipeline_limiter url now input e :
  limiter (snd (App.validateAndSanitizeInput url now input e))
  = snd (isAllowed now (js "crud_operations") (limiter e)).
Proof.
  unfold App.validateAndSanitizeInput.
  destruct (isAllowed now (js "crud_operations") (limiter e)) as [b rl].
  destruct b; simpl; [|reflexivity].
  destruct (validateLength input 500); simpl; [|reflexivity].
  destruct (validateInput input); simpl; [|reflexivity].
  destruct (isValidContent input); simpl; reflexivity.
Qed.

Lemma pipeline_run_limiter url : forall calls e,
  limiter (pipeline_run url calls e)
  = snd (isAllowed_run (js "crud_operations") (map fst calls) (limiter e)).
Proof.
  induction calls as [|[now input] calls IH]; intros e; [reflexivity|].
  cbn [pipeline_run map fst isAllowed_run]. rewrite IH, pipeline_limiter.
  destruct (isAllowed now (js "crud_operations") (limiter e)) as [b rl].
  cbn [snd]. destruct (isAllowed_run (js "crud_operations") (map fst calls) rl).
  reflexivity.
Qed.

(** X11: a submission takes one of the ten slots of the window whether
    it is accepted or not: after ten calls of the pipeline in one window,
    with any inputs, the next call in that window is refused as rate
    limited whatever its input. *)
Theorem eleventh_submission_refused url (calls : list (Z * jsstring))
    (now : Z) (input : jsstring) :
  length calls = 10%nat ->
  (forall a b, In a (map fst calls) -> In b (map fst calls ++ [now]) ->
               b - a < 60000) ->
  rejected_as RATE_LIMIT_EXCEEDED
    "Too many requests. Please wait before trying again."
    (pipeline_run url calls (mkEnv rateLimiter []))
    (App.validateAndSanitizeInput url now input
       (pipeline_run url calls (mkEnv rateLimiter []))).
Proof.
  intros Hlen Hwin.
  set (e := pipeline_run url calls (mkEnv rateLimiter [])).
  assert (Hlim : limiter e
                 = snd (isAllowed_run (js "crud_operations") (map fst calls)
                          rateLimiter))
    by apply pipeline_run_limiter.
  assert (H0 : stored (js "crud_operations") rateLimiter = []).
  { unfold stored, rateLimiter. simpl. rewrite lookup_empty. reflexivity. }
  destruct (isAllowed_run_within (js "crud_operations") (map fst calls)
              rateLimiter) as (_ & Hst & Hm & Hw).
  { rewrite H0. simpl app. intros a b Ha Hb. change (windowMs rateLimiter) with 60000.
    apply Hwin; [exact Ha | apply in_or_app; left; exact Hb]. }
  { rewrite H0, length_map, Hlen. simpl. lia. }
  rewrite H0 in Hst. simpl app in Hst.
  assert (Href : isAllowed now (js "crud_operations") (limiter e)
                 = (false, limiter e)).
  { apply isAllowed_refuses. rewrite Hlim, Hst, Hm, Hw.
    change (windowMs rateLimiter) with 60000.
    rewrite filter_all.
    - rewrite length_map, Hlen. simpl. lia.
    - intros a Ha. apply Z.ltb_lt. apply Hwin; [exact Ha|].
      apply in_or_app. right. left. reflexivity. }
  unfold rejected_as, App.validateAndSanitizeInput. rewrite Href. simpl.
  split; reflexivity.
Qed.

Lemma eleventh_submission_refused_witness :
  rejected_as RATE_LIMIT_EXCEEDED
    "Too many requests. Please wait before trying again."
    (pipeline_run (fun _ => None)
       [(1, js "a"); (2, js "<b>"); (3, []); (4, js "d"); (5, js "e");
        (6, js "f"); (7, js "1+1"); (8, js "h"); (9, js "i"); (10, js "j")]
       (mkEnv rateLimiter []))
    (App.validateAndSanitizeInput (fun _ => None) 11 (js "Buy milk")
       (pipeline_run (fun _ => None)
          [(1, js "a"); (2, js "<b>"); (3, []); (4, js "d"); (5, js "e");
           (6, js "f"); (7, js "1+1"); (8, js "h"); (9, js "i"); (10, js "j")]
          (mkEnv rateLimiter []))).
Proof.
  apply (eleventh_submission_refused (fun _ => None)
           [(1, js "a"); (2, js "<b>"); (3, []); (4, js "d"); (5, js "e");
            (6, js "f"); (7, js "1+1"); (8, js "h"); (9, js "i"); (10, js "j")]
           11 (js "Buy milk")).
  - reflexivity.
  - simpl. intros a b Ha Hb. lia.
Defined.

Lemma deleteItem_limiter now i st :
  limiter (App.env (App.deleteItem now i st))
  = if test App.idFormat i
    then snd (isAllowed now (js "delete_operations") (limiter (App.env st)))
    else limiter (App.env st).
Proof.
  unfold App.deleteItem. destruct (test App.idFormat i); cbn [negb];
    [|reflexivity].
  destruct (isAllowed now (js "delete_operations") (limiter (App.env st)))
    as [[] rl]; reflexivity.
Qed.

(** X12: deleting and submitting are limited apart: [deleteItem] leaves
    the timestamps of [crud_operations] as they were, and the pipeline
    those of [delete_operations]. *)
Theorem categories_limited_apart url now (i input : jsstring) (st : App.State) :
  stored (js "crud_operations") (limiter (App.env (App.deleteItem now i st)))
  = stored (js "crud_operations") (limiter (App.env st))
  /\ stored (js "delete_operations")
       (limiter (snd (App.validateAndSanitizeInput url now input (App.env st))))
     = stored (js "delete_operations") (limiter (App.env st)).
Proof.
  split.
  - rewrite deleteItem_limiter. destruct (test App.idFormat i); [|reflexivity].
    apply (isAllowed_frame now (js "delete_operations") (js "crud_operations")).
    discriminate.
  - rewrite pipeline_limiter.
    apply (isAllowed_frame now (js "crud_operations") (js "delete_operations")).
    discriminate.
Qed.

(** ** The handlers, in general *)

Lemma trimStart_length s : (length (trimStart s) <= length s)%nat.
Proof.
  induction s as [|c s IH]; simpl; [lia|]. destruct (is_space c); simpl; lia.
Qed.

Lemma trim_length s : (length (trim s) <= length s)%nat.
Proof.
  unfold trim. rewrite length_rev.
  pose proof (trimStart_length (rev (trimStart s))) as H1.
  rewrite length_rev in H1. pose proof (trimStart_length s). lia.
Qed.

Lemma In_trim c s : In c s -> is_space c = false -> In c (trim s).
Proof.
  intros Hin Hc. apply in_split in Hin as (pre & post & ->).
  change (pre ++ c :: post) with (pre ++ [c] ++ post).
  destruct (trim_keeps pre [c] post) as (pre' & post' & ->); simpl; try exact Hc.
  apply in_or_app. right. left. reflexivity.
Qed.

Lemma truthy_not_nil s : s <> [] -> truthy s = true.
Proof. destruct s; [congruence | reflexivity]. Qed.

(** What the pipeline hands over when it accepts. *)
Lemma accepted_text url now input e :
  App.isValid (fst (App.validateAndSanitizeInput url now input e)) = true ->
  App.sanitized (fst (App.validateAndSanitizeInput url now input e))
  = sanitizeHtml (trim input)
  /\ sanitizeHtml (trim input) <> []
  /\ (forall c, In c (sanitizeHtml (trim input)) -> ~ In c markup)
  /\ (length (sanitizeHtml (trim input)) <= 3000)%nat.
Proof.
  intros H. apply accepted_inv in H as (_ & Hlen & Hv & _ & Hres).
  rewrite Hres. split; [reflexivity|].
  apply validateInput_inv in Hv as (Hblank & _ & _).
  pose proof (sanitizeHtml_length (trim input)) as Hsl.
  pose proof (trim_length input) as Htl.
  unfold validateLength in Hlen. apply Nat.leb_le in Hlen.
  split; [|split].
  - intros Hnil. rewrite Hnil in Hsl. simpl in Hsl.
    destruct (trim input); [congruence | simpl in Hsl; lia].
  - intros c. apply sanitizeHtml_no_markup.
  - lia.
Qed.

Lemma addItem_accepted url t1 t2 t3 r1 r2 st :
  App.isValid (fst (App.validateAndSanitizeInput url t1 (App.newItem st)
                      (App.env st))) = true ->
  App.addItem url t1 t2 t3 r1 r2 st
  = App.mkState
      (App.items st
       ++ [App.mkItem (generateSecureId t3 r1 r2)
             (sanitizeHtml (trim (App.newItem st))) t2 t2])
      [] (App.editingId st) (App.editingText st) (App.mkSecurity false "" 0)
      (auditLog ITEM_CREATED
         (snd (App.validateAndSanitizeInput url t1 (App.newItem st)
                 (App.env st)))).
Proof.
  intros H. destruct (accepted_text _ _ _ _ H) as (Hs & Hne & _).
  unfold App.addItem.
  destruct (App.validateAndSanitizeInput url t1 (App.newItem st) (App.env st))
    as [v e']. cbn [fst snd] in *. rewrite H, Hs. cbn [negb].
  rewrite (truthy_not_nil _ Hne). reflexivity.
Qed.

Lemma addItem_rejected url t1 t2 t3 r1 r2 st :
  App.isValid (fst (App.validateAndSanitizeInput url t1 (App.newItem st)
                      (App.env st))) = false ->
  App.addItem url t1 t2 t3 r1 r2 st
  = App.mkState (App.items st) (App.newItem st) (App.editingId st)
      (App.editingText st)
      (App.mkSecurity true
         (App.error_or_default
            (fst (App.validateAndSanitizeInput url t1 (App.newItem st)
                    (App.env st))))
         (App.attempts (App.security st) + 1))
      (snd (App.validateAndSanitizeInput url t1 (App.newItem st) (App.env st))).
Proof.
  intros H. unfold App.addItem.
  destruct (App.validateAndSanitizeInput url t1 (App.newItem st) (App.env st))
    as [v e']. cbn [fst snd] in *. rewrite H. reflexivity.
Qed.

(** X13: [addItem] appends exactly one item when the pipeline accepts the
    typed text, with the sanitized trimmed text, equal creation and
    modification times, an emptied input field and a cleared alert (the
    test on the sanitized text never fails); when the pipeline rejects, the
    list and the field stay and the alert counts one more attempt. *)
Theorem addItem_outcome url t1 t2 t3 r1 r2 (st : App.State) :
  (App.isValid (fst (App.validateAndSanitizeInput url t1 (App.newItem st)
                       (App.env st))) = true ->
   App.items (App.addItem url t1 t2 t3 r1 r2 st)
   = App.items st
     ++ [App.mkItem (generateSecureId t3 r1 r2)
           (sanitizeHtml (trim (App.newItem st))) t2 t2]
   /\ App.newItem (App.addItem url t1 t2 t3 r1 r2 st) = []
   /\ App.security (App.addItem url t1 t2 t3 r1 r2 st)
      = App.mkSecurity false "" 0)
  /\ (App.isValid (fst (App.validateAndSanitizeInput url t1 (App.newItem st)
                          (App.env st))) = false ->
      App.items (App.addItem url t1 t2 t3 r1 r2 st) = App.items st
      /\ App.newItem (App.addItem url t1 t2 t3 r1 r2 st) = App.newItem st
      /\ App.isBlocked (App.security (App.addItem url t1 t2 t3 r1 r2 st)) = true
      /\ App.attempts (App.security (App.addItem url t1 t2 t3 r1 r2 st))
         = App.attempts (App.security st) + 1).
Proof.
  split; intros H.
  - rewrite (addItem_accepted _ _ _ _ _ _ _ H). repeat split; reflexivity.
  - rewrite (addItem_rejected _ _ _ _ _ _ _ H). repeat split; reflexivity.
Qed.

Lemma addItem_outcome_witness :
  App.items
    (App.addItem (fun _ => None) 0 1 2 (js "0.abc") (js "0.def")
       (App.handleNewItemChange (js "1+1") App.initial))
  = App.items (App.handleNewItemChange (js "1+1") App.initial).
Proof.
  apply (proj2 (addItem_outcome (fun _ => None) 0 1 2 (js "0.abc") (js "0.def")
                  (App.handleNewItemChange (js "1+1") App.initial))).
  vm_compute. reflexivity.
Defined.

(** X14: [deleteItem] adds no item and removes no item with another
    identifier, in each of its three outcomes; when the identifier has the
    format and the limiter allows, no item with that identifier is left. *)
Theorem deleteItem_only_target now (i : jsstring) (st : App.State) :
  (forall item, In item (App.items (App.deleteItem now i st)) ->
                In item (App.items st))
  /\ (forall item, In item (App.items st) -> App.id item <> i ->
                   In item (App.items (App.deleteItem now i st)))
  /\ (test App.idFormat i = true ->
      fst (isAllowed now (js "delete_operations") (limiter (App.env st))) = true ->
      forall item, In item (App.items (App.deleteItem now i st)) ->
                   App.id item <> i).
Proof.
  unfold App.deleteItem.
  destruct (test App.idFormat i); cbn [negb].
  2:{ cbn [App.items]. repeat split; try tauto. discriminate. }
  destruct (isAllowed now (js "delete_operations") (limiter (App.env st)))
    as [[] rl]; cbn [negb fst App.items].
  - split; [|split].
    + intros item H. apply filter_In in H. tauto.
    + intros item H Hne. apply filter_In. split; [exact H|].
      apply negb_true_iff, bool_decide_eq_false. exact Hne.
    + intros _ _ item H. apply filter_In in H as [_ H].
      apply negb_true_iff, bool_decide_eq_false in H. exact H.
  - repeat split; try tauto. discriminate.
Qed.

Lemma deleteItem_only_target_witness :
  In (App.mkItem (js "2_b") (js "y") 0 0)
    (App.items
       (App.deleteItem 0 (js "1_a")
          (App.mkState
             [App.mkItem (js "1_a") (js "x") 0 0;
              App.mkItem (js "2_b") (js "y") 0 0]
             [] None [] (App.mkSecurity false "" 0) (mkEnv rateLimiter [])))).
Proof.
  apply (deleteItem_only_target 0 (js "1_a")
           (App.mkState
              [App.mkItem (js "1_a") (js "x") 0 0;
               App.mkItem (js "2_b") (js "y") 0 0]
              [] None [] (App.mkSecurity false "" 0) (mkEnv rateLimiter []))).
  - simpl. tauto.
  - discriminate.
Defined.

(** The two ways [saveEdit] leaves the list: as it was, or with the text
    and the modification time of the edited item replaced. *)
Lemma saveEdit_items url t1 t2 st :
  App.items (App.saveEdit url t1 t2 st) = App.items st
  \/ exists eid,
       App.editingId st = Some eid
       /\ App.isValid (fst (App.validateAndSanitizeInput url t1
                              (App.editingText st) (App.env st))) = true
       /\ App.items (App.saveEdit url t1 t2 st)
          = map (fun item =>
                   if bool_decide (App.id item = eid)
                   then App.mkItem (App.id item)
                          (sanitizeHtml (trim (App.editingText st)))
                          (App.createdAt item) t2
                   else item)
              (App.items st).
Proof.
  unfold App.saveEdit.
  destruct (App.editingId st) as [[|c eid]|] eqn:Eid; [left; reflexivity| |left; reflexivity].
  destruct (App.isValid (fst (App.validateAndSanitizeInput url t1
                                (App.editingText st) (App.env st)))) eqn:Hv.
  - right. exists (c :: eid). split; [reflexivity|]. split; [reflexivity|].
    destruct (accepted_text _ _ _ _ Hv) as (Hs & Hne & _).
    destruct (App.validateAndSanitizeInput url t1 (App.editingText st)
                (App.env st)) as [v e']. cbn [fst snd] in *.
    rewrite Hv, Hs. cbn [negb]. rewrite (truthy_not_nil _ Hne). reflexivity.
  - left.
    destruct (App.validateAndSanitizeInput url t1 (App.editingText st)
                (App.env st)) as [v e']. cbn [fst snd] in *.
    rewrite Hv. reflexivity.
Qed.

(** X15: [saveEdit] never adds, removes, reorders or renames an item and
    never changes a creation time; the items other than the edited one are
    kept as they are. *)
Theorem saveEdit_keeps_identity url t1 t2 (st : App.State) :
  map App.id (App.items (App.saveEdit url t1 t2 st)) = map App.id (App.items st)
  /\ map App.createdAt (App.items (App.saveEdit url t1 t2 st))
     = map App.createdAt (App.items st)
  /\ (forall n item,
        nth_error (App.items st) n = Some item ->
        App.editingId st <> Some (App.id item) ->
        nth_error (App.items (App.saveEdit url t1 t2 st)) n = Some item).
Proof.
  destruct (saveEdit_items url t1 t2 st) as [->|(eid & Heid & _ & ->)].
  - repeat split; try reflexivity. intros n item H _. exact H.
  - rewrite !map_map. split; [|split].
    + apply map_ext. intros item. destruct (bool_decide _); reflexivity.
    + apply map_ext. intros item. destruct (bool_decide _); reflexivity.
    + intros n item H Hne. rewrite nth_error_map, H. simpl.
      destruct (bool_decide_reflect (App.id item = eid)) as [E|_]; [|reflexivity].
      exfalso. apply Hne. rewrite Heid, E. reflexivity.
Qed.

Lemma saveEdit_keeps_identity_witness :
  nth_error
    (App.items
       (App.saveEdit (fun _ => None) 5 6
          (App.mkState
             [App.mkItem (js "1_a") (js "x") 0 0;
              App.mkItem (js "2_b") (js "y") 0 0]
             [] (Some (js "1_a")) (js "new text") (App.mkSecurity false "" 0)
             (mkEnv rateLimiter []))))
    1
  = Some (App.mkItem (js "2_b") (js "y") 0 0).
Proof.
  apply (saveEdit_keeps_identity (fun _ => None) 5 6
           (App.mkState
              [App.mkItem (js "1_a") (js "x") 0 0;
               App.mkItem (js "2_b") (js "y") 0 0]
              [] (Some (js "1_a")) (js "new text") (App.mkSecurity false "" 0)
              (mkEnv rateLimiter []))).
  - reflexivity.
  - discriminate.
Defined.

(** X16: an item whose text came from an input with [<], [>] or [/]
    holds an entity, and the editor refuses to save it again even
    unchanged: after [startEditing], [saveEdit] leaves the list as it was
    and raises the alert. *)
Theorem escaped_item_cannot_be_resaved url t1 t2 (raw : jsstring) (c : Z)
    (item : App.Item) (st : App.State) :
  In c [ch "<"; ch ">"; ch "/"] -> In c raw ->
  App.text item = sanitizeHtml (trim raw) -> App.id item <> [] ->
  App.items (App.saveEdit url t1 t2 (App.startEditing item st)) = App.items st
  /\ App.isBlocked
       (App.security (App.saveEdit url t1 t2 (App.startEditing item st)))
     = true.
Proof.
  intros Hc Hraw Htext Hid.
  assert (Hamp : In (ch "&") (App.text item)).
  { rewrite Htext, sanitizeHtml_escape. apply in_flat_map. exists c. split.
    - apply In_trim; [exact Hraw|].
      simpl in Hc. destruct Hc as [<-|[<-|[<-|[]]]]; reflexivity.
    - simpl in Hc. destruct Hc as [<-|[<-|[<-|[]]]]; left; reflexivity. }
  assert (Hcontent : isValidContent (App.text item) = false).
  { unfold isValidContent.
    assert (existsb (fun pattern => test pattern (trim (App.text item)))
              sqlPatterns = true) as ->; [|reflexivity].
    apply existsb_exists. exists (g (alts (map lit sqlPunctuation))).
    split; [unfold sqlPatterns; simpl; tauto|].
    apply (test_sql_punctuation [ch "&"]).
    - unfold sqlPunctuation. simpl. tauto.
    - apply In_contains. apply In_trim; [exact Hamp | reflexivity]. }
  pose proof (rejected_by_content url t1 (App.text item)
                (auditLog EDIT_STARTED (App.env st)) Hcontent) as Hrej.
  unfold App.saveEdit.
  change (App.editingId (App.startEditing item st)) with (Some (App.id item)).
  change (App.editingText (App.startEditing item st)) with (App.text item).
  change (App.env (App.startEditing item st))
    with (auditLog EDIT_STARTED (App.env st)).
  destruct (App.id item) as [|x eid]; [congruence|].
  destruct (App.validateAndSanitizeInput url t1 (App.text item)
              (auditLog EDIT_STARTED (App.env st))) as [v e'].
  cbn [fst] in Hrej. rewrite Hrej. split; reflexivity.
Qed.

Lemma escaped_item_cannot_be_resaved_witness :
  App.items
    (App.saveEdit (fun _ => None) 5 6
       (App.startEditing (App.mkItem (js "1_a") (js "a&lt;b") 0 0)
          (App.mkState [App.mkItem (js "1_a") (js "a&lt;b") 0 0] [] None []
             (App.mkSecurity false "" 0) (mkEnv rateLimiter []))))
  = [App.mkItem (js "1_a") (js "a&lt;b") 0 0].
Proof.
  apply (escaped_item_cannot_be_resaved (fun _ => None) 5 6 (js " a<b ")
           (ch "<") (App.mkItem (js "1_a") (js "a&lt;b") 0 0)
           (App.mkState [App.mkItem (js "1_a") (js "a&lt;b") 0 0] [] None []
              (App.mkSecurity false "" 0) (mkEnv rateLimiter []))).
  - simpl. tauto.
  - simpl. tauto.
  - vm_compute. reflexivity.
  - discriminate.
Defined.

(** ** What every reachable state satisfies *)

Lemma saveEdit_newItem url t1 t2 st :
  App.newItem (App.saveEdit url t1 t2 st) = App.newItem st.
Proof.
  unfold App.saveEdit.
  destruct (App.editingId st) as [[|c eid]|]; try reflexivity.
  destruct (App.validateAndSanitizeInput url t1 (App.editingText st) (App.env st))
    as [v e'].
  destruct (App.isValid v); cbn [negb]; [|reflexivity].
  destruct (truthy (App.sanitized v)); reflexivity.
Qed.

Lemma deleteItem_newItem now i st :
  App.newItem (App.deleteItem now i st) = App.newItem st.
Proof.
  unfold App.deleteItem. destruct (test App.idFormat i); cbn [negb];
    [|reflexivity].
  destruct (isAllowed now (js "delete_operations") (limiter (App.env st)))
    as [[] rl]; reflexivity.
Qed.

Lemma deleteItem_items_subset now i st item :
  In item (App.items (App.deleteItem now i st)) -> In item (App.items st).
Proof.
  unfold App.deleteItem. destruct (test App.idFormat i); cbn [negb];
    [|intros H; exact H].
  destruct (isAllowed now (js "delete_operations") (limiter (App.env st)))
    as [[] rl]; cbn [negb App.items]; [|intros H; exact H].
  intros H. apply filter_In in H. tauto.
Qed.

Lemma step_keeps_invariant url st ev :
  Forall stored_text_ok (App.items st) /\ (length (App.newItem st) <= 500)%nat ->
  Forall stored_text_ok (App.items (step url st ev))
  /\ (length (App.newItem (step url st ev)) <= 500)%nat.
Proof.
  intros [Hitems Hnew]. destruct ev as
    [value|t1 t2 t3 r1 r2|now i|n|value|t1 t2| |]; cbn [step].
  - unfold App.handleNewItemChange.
    destruct (Nat.ltb_spec 500 (length value)); cbn [App.items App.newItem];
      split; try assumption; lia.
  - destruct (App.isValid (fst (App.validateAndSanitizeInput url t1
                                  (App.newItem st) (App.env st)))) eqn:Hv.
    + rewrite (addItem_accepted _ _ _ _ _ _ _ Hv). cbn [App.items App.newItem].
      split; [|simpl; lia].
      apply Forall_app. split; [exact Hitems|].
      constructor; [|constructor].
      destruct (accepted_text _ _ _ _ Hv) as (_ & H1 & H2 & H3).
      unfold stored_text_ok. cbn [App.text]. repeat split; assumption.
    + rewrite (addItem_rejected _ _ _ _ _ _ _ Hv). cbn [App.items App.newItem].
      split; assumption.
  - rewrite deleteItem_newItem. split; [|exact Hnew].
    apply List.Forall_forall. intros item Hin.
    rewrite List.Forall_forall in Hitems. apply Hitems.
    apply (deleteItem_items_subset now i st). exact Hin.
  - destruct (nth_error (App.items st) n); split; assumption.
  - unfold App.handleEditTextChange.
    destruct (500 <? length value)%nat; split; assumption.
  - rewrite saveEdit_newItem. split; [|exact Hnew].
    destruct (saveEdit_items url t1 t2 st) as [->|(eid & _ & Hv & ->)];
      [exact Hitems|].
    destruct (accepted_text _ _ _ _ Hv) as (_ & H1 & H2 & H3).
    apply List.Forall_forall. intros item Hin.
    apply in_map_iff in Hin as (old & <- & Hold).
    rewrite List.Forall_forall in Hitems.
    destruct (bool_decide _); [|apply Hitems; exact Hold].
    unfold stored_text_ok. cbn [App.text]. repeat split; assumption.
  - split; assumption.
  - split; assumption.
Qed.

(** X17: whatever the user does, from the initial state on: every item
    of the list has a text that is not empty, has none of the characters
    [<], [>], the double quote, ['] and [/], and has at most 3000 code
    units; and the text of the input field has at most 500. *)
Theorem stored_texts_are_safe url (evs : list Event) :
  Forall stored_text_ok (App.items (run url evs App.initial))
  /\ (length (App.newItem (run url evs App.initial)) <= 500)%nat.
Proof.
  unfold run.
  assert (G : forall evs st,
            Forall stored_text_ok (App.items st)
            /\ (length (App.newItem st) <= 500)%nat ->
            Forall stored_text_ok (App.items (fold_left (step url) evs st))
            /\ (length (App.newItem (fold_left (step url) evs st)) <= 500)%nat).
  { clear evs. induction evs as [|ev evs IH]; intros st H; [exact H|].
    simpl. apply IH. apply step_keeps_invariant. exact H. }
  apply G. split; [constructor | simpl; lia].
Qed.

(** ** Object copies *)

(** X18: the copy made by [safeObjectCreate] has none of the keys
    [__proto__], [constructor] and [prototype], has every other property
    of the object with its value, and copying it again changes nothing. *)
Theorem safeObjectCreate_keys {V : Type} (data : gmap jsstring V) :
  (forall key, In key unsafeKeys -> safeObjectCreate data !! key = None)
  /\ (forall key, ~ In key unsafeKeys ->
                  safeObjectCreate data !! key = data !! key)
  /\ safeObjectCreate (safeObjectCreate data) = safeObjectCreate data.
Proof.
  assert (Hlook : forall (d : gmap jsstring V) key,
            safeObjectCreate d !! key
            = if decide (key ∈ unsafeKeys) then None else d !! key).
  { intros d key. unfold safeObjectCreate.
    destruct (decide (key ∈ unsafeKeys)) as [Hin|Hnin].
    - apply map_lookup_filter_None. right. intros v _ Hno. apply Hno. exact Hin.
    - destruct (d !! key) as [v|] eqn:E.
      + apply map_lookup_filter_Some. split; [exact E | exact Hnin].
      + apply map_lookup_filter_None. left. exact E. }
  split; [|split].
  - intros key Hin. rewrite Hlook.
    destruct (decide (key ∈ unsafeKeys)) as [_|Hnin]; [reflexivity|].
    exfalso. apply Hnin. apply list_elem_of_In. exact Hin.
  - intros key Hnin. rewrite Hlook.
    destruct (decide (key ∈ unsafeKeys)) as [Hin|_]; [|reflexivity].
    exfalso. apply Hnin. apply list_elem_of_In. exact Hin.
  - apply map_eq. intros key. rewrite !Hlook.
    destruct (decide (key ∈ unsafeKeys)); reflexivity.
Qed.

Lemma safeObjectCreate_keys_witness :
  safeObjectCreate
    (<[js "__proto__" := 1]> (<[js "itemId" := 2]> (∅ : gmap jsstring Z)))
  !! js "__proto__" = None.
Proof.
  apply (proj1 (safeObjectCreate_keys
                  (<[js "__proto__" := 1]>
                     (<[js "itemId" := 2]> (∅ : gmap jsstring Z))))).
  simpl. tauto.
Defined.

(** ** More on the limiter and on identifiers *)

(** X19: an allowed call prunes: the timestamps stored after it are all
    within its window and end with its own; and a call made when every
    stored timestamp has left the window is allowed and starts the list
    anew. *)
Theorem allowed_call_prunes now (key : jsstring) rl :
  0 < windowMs rl ->
  (fst (isAllowed now key rl) = true ->
   (forall a, In a (stored key (snd (isAllowed now key rl))) ->
              now - a < windowMs rl)
   /\ exists kept, stored key (snd (isAllowed now key rl)) = kept ++ [now])
  /\ (0 < maxAttempts rl ->
      (forall a, In a (stored key rl) -> windowMs rl <= now - a) ->
      fst (isAllowed now key rl) = true
      /\ stored key (snd (isAllowed now key rl)) = [now]).
Proof.
  intros Hw. split.
  - intros Hb.
    destruct (isAllowed_cases now key rl)
      as [(_ & _ & Hst & _)|[Hrefuse _]];
      [|rewrite Hrefuse in Hb; discriminate].
    rewrite Hst. split; [|eexists; reflexivity].
    intros a Ha. apply in_app_or in Ha as [Ha|[<-|[]]]; [|lia].
    unfold in_window in Ha. apply filter_In in Ha as [_ Ha].
    apply Z.ltb_lt. exact Ha.
  - intros Hmax Hold.
    assert (Hnone : in_window (windowMs rl) now (stored key rl) = []).
    { unfold in_window. induction (stored key rl) as [|a l IH]; [reflexivity|].
      simpl. destruct (Z.ltb_spec (now - a) (windowMs rl)) as [Hlt|_].
      - pose proof (Hold a (or_introl eq_refl)). lia.
      - apply IH. intros b Hb. apply Hold. right. exact Hb. }
    destruct (isAllowed_accepts now key rl) as (Hb & Hst & _).
    { fold (in_window (windowMs rl) now (stored key rl)). rewrite Hnone.
      simpl. exact Hmax. }
    fold (in_window (windowMs rl) now (stored key rl)) in Hst.
    rewrite Hnone in Hst. split; assumption.
Qed.

Lemma allowed_call_prunes_witness :
  stored (js "k")
    (snd (isAllowed 70000 (js "k")
            (snd (isAllowed_run (js "k") [1; 2; 3] rateLimiter))))
  = [70000].
Proof.
  apply (allowed_call_prunes 70000 (js "k")
           (snd (isAllowed_run (js "k") [1; 2; 3] rateLimiter))).
  - vm_compute. reflexivity.
  - vm_compute. reflexivity.
  - intros a Ha. vm_compute in Ha.
    destruct Ha as [<-|[<-|[<-|[]]]]; vm_compute; discriminate.
Defined.

Lemma ch_inj a b : ch a = ch b -> a = b.
Proof.
  unfold ch. intros H. apply N2Z.inj in H.
  rewrite <- (ascii_N_embedding a), <- (ascii_N_embedding b), H. reflexivity.
Qed.

Lemma js_inj s : forall t, js s = js t -> s = t.
Proof.
  induction s as [|a s IH]; intros [|b t] H; simpl in H; try discriminate;
    [reflexivity|].
  injection H as Hc Hs. apply ch_inj in Hc. apply IH in Hs. congruence.
Qed.

Lemma numberToString_inj n n' : numberToString n = numberToString n' -> n = n'.
Proof.
  unfold numberToString. intros H. apply js_inj in H.
  assert (Hok : forall z, Z.to_int z <> Decimal.Pos Decimal.Nil
                          /\ Z.to_int z <> Decimal.Neg Decimal.Nil).
  { intros [|p|p]; simpl; split; try discriminate;
      intros E; injection E as E; exact (DecimalPos.Unsigned.to_uint_nonnil p E). }
  apply DecimalZ.to_int_inj.
  assert (E : Some (Z.to_int n) = Some (Z.to_int n')).
  { rewrite <- (NilZero.isi (Z.to_int n)) by apply Hok.
    rewrite <- (NilZero.isi (Z.to_int n')) by apply Hok.
    rewrite H. reflexivity. }
  injection E as E. exact E.
Qed.

Lemma numberToString_chars n c :
  In c (numberToString n) -> c = ch "-" \/ is_base36 c = true.
Proof.
  assert (U : forall d c, In c (js (NilEmpty.string_of_uint d)) ->
                          is_base36 c = true).
  { induction d; simpl; intros x Hx; try (destruct Hx as [<-|Hx]; [reflexivity|]);
      try contradiction; apply IHd; exact Hx. }
  assert (U0 : forall d c, In c (js (NilZero.string_of_uint d)) ->
                           is_base36 c = true).
  { intros d x. unfold NilZero.string_of_uint.
    destruct d; try apply U. simpl. intros [<-|[]]. reflexivity. }
  unfold numberToString. destruct (Z.to_int n); simpl.
  - intros H. right. eapply U0. exact H.
  - intros [<-|H]; [left; reflexivity | right; eapply U0; exact H].
Qed.

(** The part of an identifier before its first underscore. *)
Lemma split_at_underscore (d d' t t' : jsstring) :
  ~ In (ch "_") d -> ~ In (ch "_") d' ->
  d ++ ch "_" :: t = d' ++ ch "_" :: t' -> d = d' /\ t = t'.
Proof.
  revert d'. induction d as [|x d IH]; intros [|y d'] Hd Hd' H; simpl in H.
  - injection H as H. split; [reflexivity | exact H].
  - injection H as Hy _. exfalso. apply Hd'. left. symmetry. exact Hy.
  - injection H as Hx _. exfalso. apply Hd. left. exact Hx.
  - injection H as -> H.
    destruct (IH d') as [-> ->]; try exact H.
    + intros Hin. apply Hd. right. exact Hin.
    + intros Hin. apply Hd'. right. exact Hin.
    + split; reflexivity.
Qed.

(** X20: the timestamp can be read back from an identifier, so two
    identifiers made at different clock readings are different, whatever
    the random draws. *)
Theorem generateSecureId_timestamp (t t' : Z) (r1 r2 r1' r2' : jsstring) :
  generateSecureId t r1 r2 = generateSecureId t' r1' r2' -> t = t'.
Proof.
  unfold generateSecureId. intros H.
  apply numberToString_inj.
  change (numberToString t ++ ch "_" :: (substring 2 15 r1 ++ substring 2 15 r2)
          = numberToString t' ++ ch "_" :: (substring 2 15 r1' ++ substring 2 15 r2'))
    in H.
  apply split_at_underscore in H as [H _]; [exact H| |];
    intros Hin; apply numberToString_chars in Hin as [Hin|Hin]; discriminate.
Qed.

Lemma generateSecureId_timestamp_witness : 1700000000000 = 1700000000000.
Proof.
  apply (generateSecureId_timestamp 1700000000000 1700000000000
           (js "0.abc") (js "0.def") (js "0.abc") (js "0.def")).
  reflexivity.
Defined.

(** ** White space around the content *)

Lemma trimStart_fixed s :
  match s with c :: _ => is_space c = false | [] => True end ->
  trimStart s = s.
Proof. destruct s as [|c s]; [reflexivity|]. simpl. intros ->. reflexivity. Qed.

Lemma trimStart_head s :
  match trimStart s with c :: _ => is_space c = false | [] => True end.
Proof.
  induction s as [|c s IH]; simpl; [exact I|].
  destruct (is_space c) eqn:E; [exact IH | exact E].
Qed.

Lemma trimStart_suffix s : exists w, s = w ++ trimStart s.
Proof.
  induction s as [|c s [w IH]]; [exists []; reflexivity|].
  simpl. destruct (is_space c).
  - exists (c :: w). simpl. f_equal. exact IH.
  - exists []. reflexivity.
Qed.

Lemma trim_idempotent s : trim (trim s) = trim s.
Proof.
  unfold trim.
  set (a := trimStart s). set (b := trimStart (rev a)).
  assert (Hb : match b with c :: _ => is_space c = false | [] => True end)
    by apply trimStart_head.
  assert (Ha : match rev b with c :: _ => is_space c = false | [] => True end).
  { destruct (trimStart_suffix (rev a)) as [w Hw]. fold b in Hw.
    apply (f_equal (@rev Z)) in Hw. rewrite rev_involutive, rev_app_distr in Hw.
    pose proof (trimStart_head s) as Hhead. fold a in Hhead. rewrite Hw in Hhead.
    destruct (rev b); [exact I | exact Hhead]. }
  rewrite (trimStart_fixed (rev b) Ha), rev_involutive.
  rewrite (trimStart_fixed b Hb). reflexivity.
Qed.

(** X21: [isValidContent] does not see the white space around the
    content: a content and its trimmed form get the same answer. *)
Theorem isValidContent_trim content :
  isValidContent (trim content) = isValidContent content.
Proof. unfold isValidContent. rewrite trim_idempotent. reflexivity. Qed.
